(** * Ledyard Bridge construction zone: a shallow embedding of [ledyard.c]

    The bridge is a monitor: one mutex, two condition variables and a
    handful of [int] fields.  Every function of the C file that touches
    the shared [ledyard] structure holds the mutex for its whole body,
    except while it is blocked in [pthread_cond_wait].  The embedding
    therefore runs each lock-delimited section as one function over a
    [world]: the shared structure, the return codes the pthread calls are
    going to produce, and the chronological log of calls and output. *)

From Stdlib Require Import ZArith Ascii String DecimalString List Bool Lia.
Import ListNotations.
Open Scope string_scope.
Open Scope list_scope.
Open Scope Z_scope.

(** ** Constants *)

Definition MAX_CARS : Z := 3.
Definition NO_DIRECTION : Z := -1.
Definition TO_HANOVER : Z := 0.
Definition TO_NORWICH : Z := 1.

(** ** The C type [int]

    Fields are 32-bit signed integers; [++], [--] and [-] are written
    with their wrap-around. *)

Definition INT_MIN : Z := - 2 ^ 31.
Definition INT_MAX : Z := 2 ^ 31 - 1.

Definition int_wrap (z : Z) : Z := (z + 2 ^ 31) mod 2 ^ 32 - 2 ^ 31.

Definition int_range (z : Z) : Prop := INT_MIN <= z <= INT_MAX.

Definition incr (z : Z) : Z := int_wrap (z + 1).
Definition decr (z : Z) : Z := int_wrap (z - 1).
Definition int_sub (a b : Z) : Z := int_wrap (a - b).

(** [static int min(int a, int b)] *)
Definition min (a b : Z) : Z := if a <? b then a else b.

(** ** Data structures *)

(** [bridge_state_t] without its mutex and condition variables, which
    live in the pthread calls below. *)
Record bridge_state : Type := mk_bridge {
  str_dir : string;
  dir : Z;
  num_cars : Z;
  wait_hanover : Z;
  wait_norwich : Z
}.

(** The two [int*] a car may hold: [&ledyard.wait_hanover] and
    [&ledyard.wait_norwich]. *)
Inductive wait_ptr : Type := addr_wait_hanover | addr_wait_norwich.

(** The two [pthread_cond_t*] a car may hold. *)
Inductive cond : Type := want_to_hanover | want_to_norwich.

(** [car_t]; its [str_dir] and [dir] are prefixed, the bridge has fields
    of the same names. *)
Record car : Type := mk_car {
  car_str_dir : string;
  car_dir : Z;
  other_dir : Z;
  wait_dir : wait_ptr;
  wait_other_dir : wait_ptr;
  current : cond;
  other : cond
}.

Definition load (p : wait_ptr) (s : bridge_state) : Z :=
  match p with
  | addr_wait_hanover => wait_hanover s
  | addr_wait_norwich => wait_norwich s
  end.

Definition store (p : wait_ptr) (v : Z) (s : bridge_state) : bridge_state :=
  match p with
  | addr_wait_hanover =>
      mk_bridge (str_dir s) (dir s) (num_cars s) v (wait_norwich s)
  | addr_wait_norwich =>
      mk_bridge (str_dir s) (dir s) (num_cars s) (wait_hanover s) v
  end.

Definition set_dir (d : Z) (s : bridge_state) : bridge_state :=
  mk_bridge (str_dir s) d (num_cars s) (wait_hanover s) (wait_norwich s).

Definition set_num_cars (n : Z) (s : bridge_state) : bridge_state :=
  mk_bridge (str_dir s) (dir s) n (wait_hanover s) (wait_norwich s).

(** [strcpy(ledyard.str_dir, src)] *)
Definition strcpy_str_dir (src : string) (s : bridge_state) : bridge_state :=
  mk_bridge src (dir s) (num_cars s) (wait_hanover s) (wait_norwich s).

(** ** The world a critical section runs in *)

Inductive prim : Type :=
| mutex_init
| cond_init (c : cond)
| mutex_lock
| mutex_unlock
| cond_wait (c : cond)
| cond_signal (c : cond).

Inductive arg : Type := ArgInt (z : Z) | ArgStr (s : string).

Inductive event : Type :=
| Call (p : prim) (rc : Z)              (* a pthread call and what it returned *)
| Printf (fmt : string) (args : list arg)
| Stderr (fmt : string) (args : list arg).

(** [oracle] holds the return codes of the pthread calls still to come,
    in call order; once it is exhausted every call returns 0. *)
Record world : Type := mk_world {
  ledyard : bridge_state;
  oracle : list Z;
  trace : list event
}.

Definition M (A : Type) : Type := world -> A * world.

Definition ret {A} (a : A) : M A := fun w => (a, w).

Definition bind {A B} (m : M A) (k : A -> M B) : M B :=
  fun w => let (a, w') := m w in k a w'.

Notation "x <- m ;; k" := (bind m (fun x => k))
  (at level 61, m at next level, right associativity).
Notation "m ;;; k" := (bind m (fun _ => k))
  (at level 61, right associativity).

Definition get : M bridge_state := fun w => (ledyard w, w).

Definition modify (f : bridge_state -> bridge_state) : M unit :=
  fun w => (tt, mk_world (f (ledyard w)) (oracle w) (trace w)).

Definition emit (e : event) : M unit :=
  fun w => (tt, mk_world (ledyard w) (oracle w) (trace w ++ [e])).

Definition pthread (p : prim) : M Z :=
  fun w =>
    let rc := hd 0 (oracle w) in
    (rc, mk_world (ledyard w) (tl (oracle w)) (trace w ++ [Call p rc])).

Definition printf (fmt : string) (args : list arg) : M unit :=
  emit (Printf fmt args).

Definition fprintf_stderr (fmt : string) (args : list arg) : M unit :=
  emit (Stderr fmt args).

(** A C condition: any non-zero return code is an error. *)
Definition failed (rc : Z) : bool := negb (rc =? 0).

(** ** Thread-invoked functions *)

(** The two cars [initialize_car] can build. *)
Definition hanover_car : car :=
  mk_car "Hanover" TO_HANOVER TO_NORWICH
         addr_wait_hanover addr_wait_norwich
         want_to_hanover want_to_norwich.

Definition norwich_car : car :=
  mk_car "Norwich" TO_NORWICH TO_HANOVER
         addr_wait_norwich addr_wait_hanover
         want_to_norwich want_to_hanover.

(** [initialize_car]: the return code, and the car when its fields were
    assigned.  With any other direction the malloc'ed struct keeps
    indeterminate pointers: [None]. *)
Definition initialize_car (d : Z) : Z * option car :=
  if d =? TO_HANOVER then (0, Some hanover_car)
  else if d =? TO_NORWICH then (0, Some norwich_car)
  else (-1, None).

(** What a call that may block has done when control leaves the
    critical section: it returned, or it sits in [pthread_cond_wait]. *)
Inductive outcome : Type :=
| Returned (rc : Z)
| Blocked (c : cond).

(** [arrive_bridge], lines 236-246: leave the lobby, enter the bridge,
    release the lock. *)
Definition board (c : car) : M outcome :=
  modify (fun s => store (wait_dir c) (decr (load (wait_dir c) s)) s) ;;;
  modify (fun s => set_num_cars (incr (num_cars s)) s) ;;;
  printf "+++ A car got on bridge to %s +++\n" [ArgStr (car_str_dir c)] ;;;
  rc <- pthread mutex_unlock ;;
  if failed rc then
    fprintf_stderr "Error releasing lock for arrive_bridge()\n" [] ;;;
    ret (Returned (-1))
  else ret (Returned 0).

(** [arrive_bridge], lines 214-235: the checks after the wait loop and
    the assignment of a direction to an empty bridge. *)
Definition getting_on (c : car) : M outcome :=
  s <- get ;;
  if dir s =? other_dir c then
    fprintf_stderr "KABOOOM! You just caused a car crash!\n" [] ;;;
    ret (Returned (-1))
  else if num_cars s >=? MAX_CARS then
    fprintf_stderr
      "KERSPLASH! Your bridge just collapsed from over-capacity!\n" [] ;;;
    ret (Returned (-1))
  else if dir s =? NO_DIRECTION then
    if negb (num_cars s =? 0) then
      fprintf_stderr
        "Error; bridge in invalid state, having no direction with %d car(s) on it\n"
        [ArgInt (num_cars s)] ;;;
      ret (Returned (-1))
    else
      modify (set_dir (car_dir c)) ;;;
      modify (strcpy_str_dir (car_str_dir c)) ;;;
      board c
  else board c.

(** The loop condition of line 207. *)
Definition must_wait (c : car) (s : bridge_state) : bool :=
  (dir s =? other_dir c) || (num_cars s >=? MAX_CARS).

(** One evaluation of the [while] of line 207 with the lock held: call
    [pthread_cond_wait] (the thread blocks and the lock is released) or
    fall through to the section after the loop. *)
Definition waiting_lobby (c : car) : M outcome :=
  s <- get ;;
  if must_wait c s then ret (Blocked (current c))
  else getting_on c.

(** [arrive_bridge] from its first line to the point where it returns
    or blocks. *)
Definition arrive_bridge (c : car) : M outcome :=
  rc <- pthread mutex_lock ;;
  if failed rc then
    fprintf_stderr "Error acquiring lock for arrive_bridge()" [] ;;;
    ret (Returned (-1))
  else
    modify (fun s => store (wait_dir c) (incr (load (wait_dir c) s)) s) ;;;
    printf "A new car is waiting to go to %s\n" [ArgStr (car_str_dir c)] ;;;
    waiting_lobby c.

(** [arrive_bridge] from the return of [pthread_cond_wait] (line 208,
    lock held again) to the point where it returns or blocks again. *)
Definition arrive_bridge_wake (c : car) : M outcome :=
  rc <- pthread (cond_wait (current c)) ;;
  if failed rc then
    fprintf_stderr "Error blocking thread on a condition variable\n" [] ;;;
    ret (Returned (-1))
  else waiting_lobby c.

(** [on_bridge] *)
Definition on_bridge (c : car) : M Z :=
  rc <- pthread mutex_lock ;;
  if failed rc then
    fprintf_stderr "Error acquiring lock for on_bridge()\n" [] ;;;
    ret (-1)
  else
    printf "\n====== Ledyard Bridge ======\n" [] ;;;
    s <- get ;;
    printf "Flow of Traffic: %d cars to %s\n"
           [ArgInt (num_cars s); ArgStr (str_dir s)] ;;;
    printf "Cars waiting for Hanover: %d\n" [ArgInt (wait_hanover s)] ;;;
    printf "Cars waiting for Norwich: %d\n\n" [ArgInt (wait_norwich s)] ;;;
    rc <- pthread mutex_unlock ;;
    if failed rc then
      fprintf_stderr "Error releasing lock for on_bridge()\n" [] ;;;
      ret (-1)
    else ret 0.

(** [exit_bridge], lines 297-304: the new bridge state and the two
    locals [(num_sig_current, num_sig_other)]. *)
Definition leave_bridge (c : car) (s : bridge_state)
  : bridge_state * (Z * Z) :=
  let s1 := set_num_cars (decr (num_cars s)) s in
  if num_cars s1 =? 0 then
    let s2 := strcpy_str_dir "Neither" (set_dir NO_DIRECTION s1) in
    (s2, (min (int_sub MAX_CARS (num_cars s2)) (load (wait_dir c) s2),
          min MAX_CARS (load (wait_other_dir c) s2)))
  else
    (s1, (min (int_sub MAX_CARS (num_cars s1)) (load (wait_dir c) s1), 0)).

(** [for (i = 0; i < n; i++) if (pthread_cond_signal(cv)) return -1;]
    with [n] iterations left; [true] when a signal failed. *)
Fixpoint signal_loop (msg : string) (cv : cond) (n : nat) : M bool :=
  match n with
  | O => ret false
  | S n' =>
      rc <- pthread (cond_signal cv) ;;
      if failed rc then fprintf_stderr msg [] ;;; ret true
      else signal_loop msg cv n'
  end.

(** [exit_bridge] *)
Definition exit_bridge (c : car) : M Z :=
  rc <- pthread mutex_lock ;;
  if failed rc then
    fprintf_stderr "Error acquiring lock for exit_bridge()\n" [] ;;;
    ret (-1)
  else
    s <- get ;;
    let '(s', (num_sig_current, num_sig_other)) := leave_bridge c s in
    modify (fun _ => s') ;;;
    err <- signal_loop
             "Error signaling to unblock threads on condition variable\n"
             (current c) (Z.to_nat num_sig_current) ;;
    if err then ret (-1)
    else
      err <- signal_loop
               "Error signaling to unblcok threads on condition variable\n"
               (other c) (Z.to_nat num_sig_other) ;;
      if err then ret (-1)
      else
        printf "--- A car has exited for %s ---\n" [ArgStr (car_str_dir c)] ;;;
        rc <- pthread mutex_unlock ;;
        if failed rc then
          fprintf_stderr "Error releasing lock for exit_bridge()\n" [] ;;;
          ret (-1)
        else ret 0.

(** The life of one car thread, [one_vehicle], cut at the points where
    another thread may run: [consider_interleaving] only sleeps, and a
    thread inside [pthread_cond_wait] has released the lock.  No return
    code is inspected by [one_vehicle]. *)
Inductive pc : Type :=
| at_arrive | in_cond_wait | at_on_bridge | at_exit | finished.

Record vehicle : Type := mk_vehicle { v_car : car; v_pc : pc }.

(** [one_vehicle] up to its first scheduling point.  With a direction
    that [initialize_car] rejects the thread goes on with pointers that
    were never assigned; the model stops there. *)
Definition one_vehicle (d : Z) : option vehicle :=
  match initialize_car d with
  | (_, Some c) => Some (mk_vehicle c at_arrive)
  | (_, None) => None
  end.

Definition after_arrival (c : car) (o : outcome) : vehicle :=
  match o with
  | Returned _ => mk_vehicle c at_on_bridge
  | Blocked _ => mk_vehicle c in_cond_wait
  end.

(** [one_vehicle] from one scheduling point to the next. *)
Definition one_vehicle_step (v : vehicle) : M vehicle :=
  match v_pc v with
  | at_arrive =>
      o <- arrive_bridge (v_car v) ;; ret (after_arrival (v_car v) o)
  | in_cond_wait =>
      o <- arrive_bridge_wake (v_car v) ;; ret (after_arrival (v_car v) o)
  | at_on_bridge =>
      on_bridge (v_car v) ;;; ret (mk_vehicle (v_car v) at_exit)
  | at_exit =>
      exit_bridge (v_car v) ;;; ret (mk_vehicle (v_car v) finished)
  | finished => ret v
  end.

(** [n] consecutive steps of one thread, no other thread running in
    between. *)
Fixpoint run_vehicle (n : nat) (v : vehicle) : M vehicle :=
  match n with
  | O => ret v
  | S n' => v' <- one_vehicle_step v ;; run_vehicle n' v'
  end.

(** ** Program-level functions *)

(** [initialize_bridge]; the three initialisations are joined by [||]. *)
Definition initialize_bridge : M Z :=
  let fail :=
    fprintf_stderr
      "Error initializing ledyard mutex or condition variables\n" [] ;;;
    ret (-1) in
  rc <- pthread mutex_init ;;
  if failed rc then fail
  else
    rc <- pthread (cond_init want_to_hanover) ;;
    if failed rc then fail
    else
      rc <- pthread (cond_init want_to_norwich) ;;
      if failed rc then fail
      else
        modify (strcpy_str_dir "Neither") ;;;
        modify (set_dir NO_DIRECTION) ;;;
        modify (set_num_cars 0) ;;;
        modify (store addr_wait_hanover 0) ;;;
        modify (store addr_wait_norwich 0) ;;;
        ret 0.

(** ** The bridge shared by many cars

    The shared world together with the cars that sit in
    [pthread_cond_wait] ([lobby]) and the cars whose [arrive_bridge]
    returned 0 and that have not called [exit_bridge] yet ([crossing]).
    A blocked car may be woken at any time (a signal or a spurious
    wakeup); [exit_bridge] is called by cars that are crossing. *)
Record system : Type := mk_system {
  sys_world : world;
  lobby : list car;
  crossing : list car
}.

(** A car whose fields [initialize_car] assigned. *)
Definition initialized (c : car) : Prop :=
  exists d, initialize_car d = (0, Some c).

Definition settle (c : car) (r : outcome * world) (lob cro : list car)
  : system :=
  match fst r with
  | Returned rc =>
      if rc =? 0 then mk_system (snd r) lob (c :: cro)
      else mk_system (snd r) lob cro
  | Blocked _ => mk_system (snd r) (c :: lob) cro
  end.

Inductive step : system -> system -> Prop :=
| step_arrive c w lob cro :
    initialized c ->
    step (mk_system w lob cro) (settle c (arrive_bridge c w) lob cro)
| step_wake c w lob1 lob2 cro :
    step (mk_system w (lob1 ++ c :: lob2) cro)
         (settle c (arrive_bridge_wake c w) (lob1 ++ lob2) cro)
| step_on_bridge c w lob cro :
    In c cro ->
    step (mk_system w lob cro) (mk_system (snd (on_bridge c w)) lob cro)
| step_exit c w lob cro1 cro2 :
    step (mk_system w lob (cro1 ++ c :: cro2))
         (mk_system (snd (exit_bridge c w)) lob (cro1 ++ cro2)).

(** The states the simulation can be in: [main] goes on only when
    [initialize_bridge] returned 0. *)
Inductive reachable : system -> Prop :=
| reach_init w0 w :
    initialize_bridge w0 = (0, w) ->
    reachable (mk_system w [] [])
| reach_step s s' :
    reachable s -> step s s' -> reachable s'.

(** ** Views of the code used to state its properties *)

(** The section after the wait loop, on the shared structure alone:
    the structure it leaves, or [None] on one of its three error
    returns. *)
Definition boarded (c : car) (s : bridge_state) : option bridge_state :=
  let enter s :=
    let s1 := store (wait_dir c) (decr (load (wait_dir c) s)) s in
    set_num_cars (incr (num_cars s1)) s1 in
  if dir s =? other_dir c then None
  else if num_cars s >=? MAX_CARS then None
  else if dir s =? NO_DIRECTION then
    if negb (num_cars s =? 0) then None
    else Some (enter (strcpy_str_dir (car_str_dir c) (set_dir (car_dir c) s)))
  else Some (enter s).

(** The world in which [arrive_bridge] evaluates its loop condition for
    the first time, when the lock was acquired. *)
Definition in_lobby (c : car) (w : world) : world :=
  mk_world
    (store (wait_dir c) (incr (load (wait_dir c) (ledyard w))) (ledyard w))
    (tl (oracle w))
    ((trace w ++ [Call mutex_lock (hd 0 (oracle w))]) ++
     [Printf "A new car is waiting to go to %s\n" [ArgStr (car_str_dir c)]]).

(** The world in which a woken car evaluates the loop condition again. *)
Definition woken (c : car) (w : world) : world :=
  mk_world (ledyard w) (tl (oracle w))
    (trace w ++ [Call (cond_wait (current c)) (hd 0 (oracle w))]).

(** The events a call appended to the log of [w]. *)
Definition emitted (w w' : world) : list event :=
  skipn (List.length (trace w)) (trace w').

(** The condition variables on which [pthread_cond_signal] was called,
    in call order. *)
Definition signals (tr : list event) : list cond :=
  flat_map (fun e => match e with
                     | Call (cond_signal cv) _ => [cv]
                     | _ => []
                     end) tr.

(** Some [pthread_cond_signal] of the log returned an error. *)
Definition signal_failed (tr : list event) : bool :=
  existsb (fun e => match e with
                    | Call (cond_signal _) rc => failed rc
                    | _ => false
                    end) tr.

(** The locals [(num_sig_current, num_sig_other)] of [exit_bridge] when
    it reaches its loops, or when it returns before them: both start
    at 0. *)
Definition exit_quotas (c : car) (w : world) : Z * Z :=
  if failed (hd 0 (oracle w)) then (0, 0)
  else snd (leave_bridge c (ledyard w)).

(** The three reports of a broken invariant in [arrive_bridge]. *)
Definition invariant_report (e : event) : bool :=
  match e with
  | Stderr fmt _ =>
      (fmt =? "KABOOOM! You just caused a car crash!\n")%string
      || (fmt =? "KERSPLASH! Your bridge just collapsed from over-capacity!\n")%string
      || (fmt =? "Error; bridge in invalid state, having no direction with %d car(s) on it\n")%string
  | _ => false
  end.

(** The line [exit_bridge] prints once its signals are sent. *)
Definition exit_report (c : car) : event :=
  Printf "--- A car has exited for %s ---\n" [ArgStr (car_str_dir c)].

(** ** The invariant of the monitor *)

Definition bridge_ok (s : bridge_state) : Prop :=
  0 <= num_cars s <= MAX_CARS /\
  (num_cars s = 0 <-> dir s = NO_DIRECTION) /\
  (dir s = NO_DIRECTION \/ dir s = TO_HANOVER \/ dir s = TO_NORWICH).

(** The cars that are crossing are counted by [num_cars] and all head
    in the direction of the bridge.  ([num_cars] may stay ahead of them:
    a car whose [exit_bridge] could not lock leaves without being
    subtracted.) *)
Definition traffic_ok (s : bridge_state) (cro : list car) : Prop :=
  bridge_ok s /\
  Z.of_nat (List.length cro) <= num_cars s /\
  Forall (fun c => initialized c /\ car_dir c = dir s) cro.

Definition system_ok (sys : system) : Prop :=
  traffic_ok (ledyard (sys_world sys)) (crossing sys) /\
  Forall initialized (lobby sys).

(** ** Scenarios *)

(** The static [ledyard] before [main] runs, every pthread call
    succeeding. *)
Definition boot : world := mk_world (mk_bridge "" 0 0 0 0) [] [].

(** After [initialize_bridge]; then two cars for Hanover arrive, then
    one for Norwich. *)
Definition sys0 : system :=
  Eval vm_compute in mk_system (snd (initialize_bridge boot)) [] [].

Definition sys1 : system :=
  Eval vm_compute in
    settle hanover_car (arrive_bridge hanover_car (sys_world sys0))
           (lobby sys0) (crossing sys0).

Definition sys2 : system :=
  Eval vm_compute in
    settle hanover_car (arrive_bridge hanover_car (sys_world sys1))
           (lobby sys1) (crossing sys1).

Definition sys3 : system :=
  Eval vm_compute in
    settle norwich_car (arrive_bridge norwich_car (sys_world sys2))
           (lobby sys2) (crossing sys2).

(** One car on the bridge towards Hanover, five waiting for Hanover and
    two for Norwich. *)
Definition last_car_out : world :=
  mk_world (mk_bridge "Hanover" TO_HANOVER 1 5 2) [] [].

(** A full bridge towards Hanover. *)
Definition full_bridge : world :=
  mk_world (mk_bridge "Hanover" TO_HANOVER 3 0 0) [] [].

(** An empty bridge with seven cars waiting for Hanover. *)
Definition empty_bridge : world :=
  mk_world (mk_bridge "Neither" NO_DIRECTION 0 7 0) [] [].

(** An empty bridge on which the next [pthread_mutex_lock] fails. *)
Definition lock_fails : world :=
  mk_world (mk_bridge "Neither" NO_DIRECTION 0 0 0) [1] [].

(** ** Further views: names, waiting counts, steps *)

(** The word [str_dir] holds for a direction. *)
Definition dir_name (d : Z) : string :=
  if d =? TO_HANOVER then "Hanover"
  else if d =? TO_NORWICH then "Norwich"
  else "Neither".



(** Some [pthread_cond_wait] of the log returned an error. *)
Definition wait_failed (tr : list event) : bool :=
  existsb (fun e => match e with
                    | Call (cond_wait _) rc => failed rc
                    | _ => false
                    end) tr.

(** The calls of [pthread_mutex_lock] that returned 0, and the calls of
    [pthread_mutex_unlock], in a log. *)
Definition locks_taken (tr : list event) : nat :=
  List.length (filter (fun e => match e with
                                | Call mutex_lock rc => rc =? 0
                                | _ => false
                                end) tr).

Definition unlock_calls (tr : list event) : nat :=
  List.length (filter (fun e => match e with
                                | Call mutex_unlock _ => true
                                | _ => false
                                end) tr).


(** An event that is neither a lock, an unlock or a wait, nor one of
    the three reports. *)
Definition plain_event (e : event) : bool :=
  match e with
  | Call mutex_lock _ | Call mutex_unlock _ | Call (cond_wait _) _ => false
  | _ => negb (invariant_report e)
  end.

(** Every pthread call still to come returns 0. *)
Definition calm (w : world) : Prop := Forall (fun rc => rc = 0) (oracle w).

(** The last car towards Hanover leaves while cars wait; the lock is
    granted and the first [pthread_cond_signal] fails. *)
Definition signal_fails : world :=
  mk_world (mk_bridge "Hanover" TO_HANOVER 1 5 2) [0; 1] [].

(** ** Random sleeps *)

(** [consider_interleaving].  [rands] holds the values [rand()] is going
    to return to the calling thread, in call order (0 once the list is
    exhausted); the result is the argument of [sleep], when it is
    called, and the values left.  [%] is the C remainder; with
    [range == 0] it is undefined in C. *)
Definition consider_interleaving (min max : Z) (rands : list Z)
  : option Z * list Z :=
  let bool := Z.rem (hd 0 rands) 2 in
  let range := int_wrap (int_wrap (max - min) + 1) in
  if bool =? 0 then (None, tl rands)
  else (Some (int_wrap (Z.rem (hd 0 (tl rands)) range + min)),
        tl (tl rands)).

(** The three sleeps of [one_vehicle], before [arrive_bridge],
    [on_bridge] and [exit_bridge]. *)
Definition one_vehicle_sleeps (rands : list Z) : list (option Z) * list Z :=
  let (s1, r1) := consider_interleaving 1 1 rands in
  let (s2, r2) := consider_interleaving 1 5 r1 in
  let (s3, r3) := consider_interleaving 1 5 r2 in
  ([s1; s2; s3], r3).

Definition seconds (sleeps : list (option Z)) : Z :=
  fold_right (fun o acc => match o with Some t => t + acc | None => acc end)
             0 sleeps.

(** ** Console input *)

Definition newline : ascii := "010"%char.

(** [isspace] in the C locale: space, and tab to carriage return. *)
Definition isspace (c : ascii) : bool :=
  let n := nat_of_ascii c in
  (n =? 32)%nat || ((9 <=? n)%nat && (n <=? 13)%nat).

(** A buffer is the C string it holds: the bytes before the first
    [NUL]. *)
Fixpoint c_string (bytes : list ascii) : list ascii :=
  match bytes with
  | [] => []
  | b :: rest => if Ascii.eqb b "000"%char then [] else b :: c_string rest
  end.

(** [stdin] is the list of bytes still to be read; the empty list is
    end of file.  At most [n] bytes, up to and including a newline. *)
Fixpoint fgets_read (n : nat) (stdin : list ascii)
  : list ascii * list ascii :=
  match n, stdin with
  | O, _ => ([], stdin)
  | _, [] => ([], [])
  | S n', b :: rest =>
      if Ascii.eqb b newline then ([b], rest)
      else let (bytes, rest') := fgets_read n' rest in (b :: bytes, rest')
  end.

(** [fgets(buffer, len, stdin)]: the new content of the buffer and the
    input left.  When nothing can be read the buffer keeps what it
    held.  (The program calls it with [len] 2 and 4 only.) *)
Definition fgets (buffer : list ascii) (len : Z) (stdin : list ascii)
  : list ascii * list ascii :=
  if len <=? 0 then (buffer, stdin)
  else if len =? 1 then ([], stdin)
  else match fgets_read (Z.to_nat (len - 1)) stdin with
       | ([], rest) => (buffer, rest)
       | (bytes, rest) => (c_string bytes, rest)
       end.

(** The [while] of [input_string]: [getchar] up to a newline or the end
    of file; a byte that is not a space turns [rc] into -1. *)
Fixpoint flush_line (stdin : list ascii) (rc : Z) : Z * list ascii :=
  match stdin with
  | [] => (rc, [])
  | b :: rest =>
      if Ascii.eqb b newline then (rc, rest)
      else flush_line rest (if isspace b then rc else -1)
  end.

(** What [input_string] returns and leaves behind. *)
Record input : Type := mk_input {
  in_rc : Z;
  in_buffer : option (list ascii);
  in_stdin : list ascii;
  in_out : list event
}.

(** [buffer[fetched - 1] == '\n']; nothing for an empty string, where
    the C code reads [buffer[-1]]. *)
Definition ends_in_newline (buf : list ascii) : option bool :=
  match rev buf with
  | [] => None
  | b :: _ => Some (Ascii.eqb b newline)
  end.

(** [input_string].  [tty] is [isatty(fileno(stdin))]; a null
    [message] or [buffer] is [None].  The result is [None] where the C
    code reads [buffer[-1]]. *)
Definition input_string (tty : bool) (message : option string)
    (buffer : option (list ascii)) (len : Z) (stdin : list ascii)
  : option input :=
  match buffer with
  | None => Some (mk_input (-1) None stdin [])
  | Some old =>
      let out := match message with
                 | Some m => if tty then [Printf "%s" [ArgStr m]] else []
                 | None => []
                 end in
      let (buf, stdin1) := fgets old len stdin in
      let fetched := int_wrap (Z.of_nat (List.length buf)) in
      let flushed :=
        if incr fetched >=? len then
          match ends_in_newline buf with
          | None => None
          | Some true => Some (0, stdin1)
          | Some false => Some (flush_line stdin1 0)
          end
        else Some (0, stdin1) in
      match flushed with
      | None => None
      | Some (rc, stdin2) =>
          let buf' := if negb (fetched =? 0) then
                        match ends_in_newline buf with
                        | Some true => removelast buf
                        | _ => buf
                        end
                      else buf in
          Some (mk_input rc (Some buf') stdin2 out)
      end
  end.

(** ** [strtol] in base 10 *)

Definition LONG_MAX : Z := 2 ^ 63 - 1.
Definition LONG_MIN : Z := - 2 ^ 63.

Definition is_digit (c : ascii) : bool :=
  let n := nat_of_ascii c in (48 <=? n)%nat && (n <=? 57)%nat.

Fixpoint skip_space (s : list ascii) : list ascii :=
  match s with
  | c :: rest => if isspace c then skip_space rest else s
  | [] => []
  end.

Fixpoint digits (s : list ascii) (acc : Z) : Z * list ascii :=
  match s with
  | c :: rest =>
      if is_digit c
      then digits rest (10 * acc + (Z.of_nat (nat_of_ascii c) - 48))
      else (acc, s)
  | [] => (acc, [])
  end.

(** [strtol(nptr, &endptr, 10)]: the value and the string [endptr]
    points to; without digits the value is 0 and [endptr] is [nptr]. *)
Definition strtol (nptr : list ascii) : Z * list ascii :=
  let s1 := skip_space nptr in
  let (neg, s2) :=
    match s1 with
    | c :: rest =>
        if Ascii.eqb c "-"%char then (true, rest)
        else if Ascii.eqb c "+"%char then (false, rest)
        else (false, s1)
    | [] => (false, s1)
    end in
  match s2 with
  | c :: _ =>
      if is_digit c then
        let (v, rest) := digits s2 0 in
        let v' := if neg then - v else v in
        (Z.max LONG_MIN (Z.min LONG_MAX v'), rest)
      else (0, nptr)
  | [] => (0, nptr)
  end.

(** ** [intro] *)

(** The buffer, the input left and the output so far. *)
Record console : Type := mk_console {
  con_buffer : list ascii;
  con_stdin : list ascii;
  con_out : list event
}.

(** [strcmp(buffer, s) == 0] *)
Definition holds (buffer : list ascii) (s : string) : bool :=
  String.eqb (string_of_list_ascii buffer) s.

(** [%d] *)
Definition dec (z : Z) : string := NilZero.string_of_int (Z.to_int z).

(** What [intro] returns: [NULL], or the array of directions with
    [*total_cars] set. *)
Inductive intro_answer : Type :=
| random_cars
| chosen_cars (total_cars : Z) (car_dirs : list Z).

(** The condition of the first [while] of [intro]. *)
Definition control_pending (buffer : list ascii) (rc : Z) : bool :=
  negb (Z.of_nat (List.length buffer) =? 1)
  || (negb (holds buffer "y") && negb (holds buffer "n"))
  || (rc =? -1).

(** The first [while] of [intro], entered with [buffer], [rc] and
    [tries] as they are.  [fuel] bounds the number of times the
    question is asked; [None] when it runs out. *)
Fixpoint ask_control (fuel : nat) (tty : bool) (tries rc : Z) (k : console)
  : option console :=
  let b := con_buffer k in
  if control_pending b rc then
    match fuel with
    | O => None
    | S fuel' =>
        let out :=
          if tries >? 0
          then con_out k ++
               [Printf "Answer must be 'y' or 'n'. Please try again.\n" []]
          else con_out k in
        match input_string tty
                (Some "Would you like to control the entering cars in the simulation? (y/n): ")
                (Some b) 2 (con_stdin k) with
        | Some (mk_input rc' (Some b') stdin' out') =>
            ask_control fuel' tty (incr tries) rc'
                        (mk_console b' stdin' (out ++ out'))
        | _ => None
        end
    end
  else Some k.

(** The second [while]: the number of cars. *)
Fixpoint ask_count (fuel : nat) (tty : bool) (val : Z) (k : console)
  : option (Z * console) :=
  if val <? 0 then
    match fuel with
    | O => None
    | S fuel' =>
        let out :=
          if val =? -2
          then con_out k ++
               [Printf "Answer must be a number from 1-100. Please try again.\n" []]
          else con_out k in
        match input_string tty
                (Some "How many cars to add to the simulation (max 100): ")
                (Some (con_buffer k)) 4 (con_stdin k) with
        | Some (mk_input rc (Some b') stdin' out') =>
            let (v, extra) := strtol b' in
            let val1 := int_wrap v in
            let val2 :=
              if (Z.of_nat (List.length b') <? 1)
                 || negb (match extra with [] => true | _ => false end)
                 || (val1 >? 100) || (val1 <? 1) || (rc =? -1)
              then -2 else val1 in
            ask_count fuel' tty val2 (mk_console b' stdin' (out ++ out'))
        | _ => None
        end
    end
  else Some (val, k).

(** The inner [while] of the [for] loop: the direction of car [i]. *)
Fixpoint ask_direction (fuel : nat) (tty : bool) (i val : Z) (k : console)
  : option (Z * console) :=
  if val <? 0 then
    match fuel with
    | O => None
    | S fuel' =>
        let out :=
          if val =? -2
          then con_out k ++
               [Printf "Answer must be '0' or '1'. Please try again\n" []]
          else con_out k in
        let message :=
          ("Direction for car " ++ dec i
           ++ "? (0 = Hanover, 1 = Norwich): ")%string in
        match input_string tty (Some message) (Some (con_buffer k)) 2
                (con_stdin k) with
        | Some (mk_input rc (Some b') stdin' out') =>
            let (v, extra) := strtol b' in
            let val1 := int_wrap v in
            let val2 :=
              if negb (Z.of_nat (List.length b') =? 1)
                 || negb (match extra with [] => true | _ => false end)
                 || (negb (val1 =? 0) && negb (val1 =? 1)) || (rc =? -1)
              then -2 else val1 in
            ask_direction fuel' tty i val2
                          (mk_console b' stdin' (out ++ out'))
        | _ => None
        end
    end
  else Some (val, k).

(** The [for] loop over the cars [i], [i + 1], ...; [n] cars to go. *)
Fixpoint ask_directions (fuel : nat) (tty : bool) (n : nat) (i : Z)
    (k : console) : option (list Z * console) :=
  match n with
  | O => Some ([], k)
  | S n' =>
      match ask_direction fuel tty i (-1) k with
      | None => None
      | Some (d, k1) =>
          match ask_directions fuel tty n' (incr i) k1 with
          | None => None
          | Some (ds, k2) => Some (d :: ds, k2)
          end
      end
  end.

(** [intro].  [buffer0] and [rc0] are what the fresh buffer and the
    local [rc] happen to hold when the first loop condition reads
    them. *)
Definition intro (fuel : nat) (tty : bool) (buffer0 : list ascii) (rc0 : Z)
    (stdin : list ascii) : option (intro_answer * console) :=
  let out0 :=
    [Printf "\nWelcome to the Ledyard Bridge Construction Zone!\n" [];
     Printf "------------------------------------------------\n" []] in
  match ask_control fuel tty 0 rc0 (mk_console buffer0 stdin out0) with
  | None => None
  | Some k =>
      if negb (holds (con_buffer k) "y") then Some (random_cars, k)
      else
        match ask_count fuel tty (-1) k with
        | None => None
        | Some (val, k1) =>
            match ask_directions fuel tty (Z.to_nat val) 0 k1 with
            | None => None
            | Some (dirs, k2) => Some (chosen_cars val dirs, k2)
            end
        end
  end.

(** ** [simulation] *)

(** The threads started so far, the values [rand()] and the calls of
    [pthread_create] and [pthread_join] are going to return, the
    pointer [chosen_dir] (the direction it points to, once assigned)
    and the output. *)
Record sim : Type := mk_sim {
  sim_threads : list vehicle;
  sim_rands : list Z;
  sim_rcs : list Z;
  chosen_dir : option Z;
  sim_out : list event
}.

(** How the first loop of [simulation] ends. *)
Inductive spawned : Type :=
| all_started (s : sim)
| invalid_direction (s : sim).

(** The first [for] loop, at car [i] with [n] cars to go.  [None] where
    the C code reads past [car_dirs] or passes an unassigned
    [chosen_dir]. *)
Fixpoint spawn_cars (n : nat) (i : Z) (car_dirs : option (list Z)) (s : sim)
  : option spawned :=
  match n with
  | O => Some (all_started s)
  | S n' =>
      let picked :=
        match car_dirs with
        | Some dirs =>
            match nth_error dirs (Z.to_nat i) with
            | None => None
            | Some d =>
                if negb (d =? 0) && negb (d =? 1) then Some (inl tt)
                else Some (inr (d, sim_rands s))
            end
        | None =>
            Some (inr (Z.rem (hd 0 (sim_rands s)) 2, tl (sim_rands s)))
        end in
      match picked with
      | None => None
      | Some (inl _) =>
          Some (invalid_direction
                  (mk_sim (sim_threads s) (sim_rands s) (sim_rcs s)
                     (chosen_dir s)
                     (sim_out s ++
                      [Stderr "Error, passed in directions are not valid\n"
                              []])))
      | Some (inr (choice, rands1)) =>
          let dir_ptr :=
            if choice =? 0 then Some TO_HANOVER
            else if choice =? 1 then Some TO_NORWICH
            else chosen_dir s in
          match dir_ptr with
          | None => None
          | Some d =>
              let rc := hd 0 (sim_rcs s) in
              let started :=
                if failed rc then Some (sim_threads s)
                else match one_vehicle d with
                     | Some v => Some (sim_threads s ++ [v])
                     | None => None
                     end in
              match started with
              | None => None
              | Some threads =>
                  let out :=
                    if failed rc
                    then sim_out s ++
                         [Stderr "Error creating new car thread %d\n"
                                 [ArgInt i]]
                    else sim_out s in
                  let (_, rands2) := consider_interleaving 1 3 rands1 in
                  spawn_cars n' (incr i) car_dirs
                    (mk_sim threads rands2 (tl (sim_rcs s)) dir_ptr out)
              end
          end
      end
  end.

(** The second [for] loop: [pthread_join] for every index. *)
Fixpoint join_cars (n : nat) (i : Z) (s : sim) : sim :=
  match n with
  | O => s
  | S n' =>
      let rc := hd 0 (sim_rcs s) in
      join_cars n' (incr i)
        (mk_sim (sim_threads s) (sim_rands s) (tl (sim_rcs s)) (chosen_dir s)
           (if failed rc
            then sim_out s ++
                 [Stderr "Error waiting for car thread %d to terminate\n"
                         [ArgInt i]]
            else sim_out s))
  end.

(** [simulation], as far as the main thread goes; the car threads run
    [one_vehicle] on their own.  [None] also for [total_cars <= 0],
    where the array [car] has no valid size. *)
Definition simulation (total_cars : Z) (car_dirs : option (list Z))
    (rands rcs : list Z) : option spawned :=
  if total_cars <=? 0 then None
  else
    let out0 :=
      [match car_dirs with
       | None => Printf "\nDefault random simulation of 20 cars will begin...\n" []
       | Some _ =>
           Printf "\nA simulation of %d cars of specified directions will begin...\n"
                  [ArgInt total_cars]
       end;
       Printf "=============== SIMULATION BEGINNING ===============\n" []] in
    match spawn_cars (Z.to_nat total_cars) 0 car_dirs
            (mk_sim [] rands rcs None out0) with
    | None => None
    | Some (invalid_direction s) => Some (invalid_direction s)
    | Some (all_started s) =>
        let s' := join_cars (Z.to_nat total_cars) 0 s in
        Some (all_started
                (mk_sim (sim_threads s') (sim_rands s') (sim_rcs s')
                   (chosen_dir s')
                   (sim_out s' ++
                    [Printf "\nAll cars have safely exited the bridge\n" [];
                     Printf "============= SIMULATION COMPLETED ==============\n" []])))
    end.

(** A byte of a line of text: neither the newline nor [NUL]. *)
Definition text_byte (b : ascii) : bool :=
  negb (Ascii.eqb b newline) && negb (Ascii.eqb b "000"%char).

(** A typed line: the decimal number and the newline. *)
Definition answer_line (z : Z) : list ascii :=
  list_ascii_of_string (dec z) ++ [newline].

(** What a user types to choose the directions [dirs]: "y", their
    number, and one direction per line. *)
Definition script (dirs : list Z) : list ascii :=
  list_ascii_of_string "y" ++ [newline] ++
  answer_line (Z.of_nat (List.length dirs)) ++
  flat_map answer_line dirs.

(** A number of cars one can type: its decimal form is a line of one
    to three bytes that [strtol] reads back whole. *)
Definition count_line_ok (n : Z) : bool :=
  let s := list_ascii_of_string (dec n) in
  forallb text_byte s
  && (1 <=? List.length s)%nat && (List.length s <=? 3)%nat
  && match strtol s with
     | (v, []) => v =? n
     | _ => false
     end.

(** The thread [simulation] starts for a valid direction. *)
Definition vehicle_for (d : Z) : vehicle :=
  mk_vehicle (if d =? TO_HANOVER then hanover_car else norwich_car) at_arrive.


Definition is_stderr (e : event) : bool :=
  match e with Stderr _ _ => true | _ => false end.



(** * Properties *)

(** ** Integers and cars *)

Lemma int_wrap_id (z : Z) : int_range z -> int_wrap z = z.
Proof.
  unfold int_range, INT_MIN, INT_MAX, int_wrap. intros H.
  rewrite Z.mod_small; lia.
Qed.

Lemma incr_small (z : Z) : INT_MIN <= z < INT_MAX -> incr z = z + 1.
Proof.
  intros H. apply int_wrap_id. unfold int_range, INT_MIN, INT_MAX in *. lia.
Qed.

Lemma decr_small (z : Z) : INT_MIN < z <= INT_MAX -> decr z = z - 1.
Proof.
  intros H. apply int_wrap_id. unfold int_range, INT_MIN, INT_MAX in *. lia.
Qed.

Lemma incr_moves (z : Z) : incr z <> z.
Proof.
  unfold incr, int_wrap. intros H.
  assert (Hm : ((z + 1 + 2 ^ 31) mod 2 ^ 32 - (z + 2 ^ 31)) = 0) by lia.
  pose proof (Z.mod_pos_bound (z + 1 + 2 ^ 31) (2 ^ 32) ltac:(lia)) as Hb.
  pose proof (Z.div_mod (z + 1 + 2 ^ 31) (2 ^ 32) ltac:(lia)) as Hd.
  lia.
Qed.

Lemma min_is_Zmin (a b : Z) : min a b = Z.min a b.
Proof. unfold min. destruct (Z.ltb_spec a b); lia. Qed.

Lemma initialized_inv (c : car) :
  initialized c -> c = hanover_car \/ c = norwich_car.
Proof.
  intros [d Hd]. unfold initialize_car in Hd.
  destruct (d =? TO_HANOVER); [left; congruence|].
  destruct (d =? TO_NORWICH); [right; congruence|discriminate].
Qed.

Lemma initialized_hanover : initialized hanover_car.
Proof. exists TO_HANOVER. reflexivity. Qed.

Lemma initialized_norwich : initialized norwich_car.
Proof. exists TO_NORWICH. reflexivity. Qed.

(** ** What each critical section does to the shared structure *)

Lemma signal_loop_ledyard (msg : string) (cv : cond) (n : nat) (w : world) :
  ledyard (snd (signal_loop msg cv n w)) = ledyard w.
Proof.
  revert w. induction n as [|n IH]; intros w; [reflexivity|].
  cbn [signal_loop]. unfold bind, pthread.
  destruct (failed (hd 0 (oracle w))); [reflexivity|].
  rewrite IH. reflexivity.
Qed.

Lemma getting_on_ledyard (c : car) (w : world) :
  match boarded c (ledyard w) with
  | Some s' =>
      ledyard (snd (getting_on c w)) = s' /\
      fst (getting_on c w) =
        Returned (if failed (hd 0 (oracle w)) then -1 else 0)
  | None =>
      ledyard (snd (getting_on c w)) = ledyard w /\
      fst (getting_on c w) = Returned (-1)
  end.
Proof.
  unfold boarded, getting_on, board, bind, get, modify, fprintf_stderr,
    printf, emit, pthread, ret.
  destruct (dir (ledyard w) =? other_dir c); [split; reflexivity|].
  destruct (num_cars (ledyard w) >=? MAX_CARS); [split; reflexivity|].
  destruct (dir (ledyard w) =? NO_DIRECTION).
  - destruct (negb (num_cars (ledyard w) =? 0)); [split; reflexivity|].
    cbn. destruct (failed (hd 0 (oracle w))); split; reflexivity.
  - cbn. destruct (failed (hd 0 (oracle w))); split; reflexivity.
Qed.

Lemma waiting_lobby_unfold (c : car) (w : world) :
  waiting_lobby c w =
  if must_wait c (ledyard w) then (Blocked (current c), w)
  else getting_on c w.
Proof.
  unfold waiting_lobby, bind, get, ret.
  destruct (must_wait c (ledyard w)); reflexivity.
Qed.

Lemma arrive_bridge_unfold (c : car) (w : world) :
  arrive_bridge c w =
  if failed (hd 0 (oracle w)) then
    (Returned (-1),
     mk_world (ledyard w) (tl (oracle w))
       ((trace w ++ [Call mutex_lock (hd 0 (oracle w))]) ++
        [Stderr "Error acquiring lock for arrive_bridge()" []]))
  else waiting_lobby c (in_lobby c w).
Proof.
  unfold arrive_bridge, bind, pthread, fprintf_stderr, printf, emit, modify,
    ret, in_lobby.
  destruct (failed (hd 0 (oracle w))); reflexivity.
Qed.

Lemma arrive_bridge_wake_unfold (c : car) (w : world) :
  arrive_bridge_wake c w =
  if failed (hd 0 (oracle w)) then
    (Returned (-1),
     mk_world (ledyard w) (tl (oracle w))
       ((trace w ++ [Call (cond_wait (current c)) (hd 0 (oracle w))]) ++
        [Stderr "Error blocking thread on a condition variable\n" []]))
  else waiting_lobby c (woken c w).
Proof.
  unfold arrive_bridge_wake, bind, pthread, fprintf_stderr, emit, ret, woken.
  destruct (failed (hd 0 (oracle w))); reflexivity.
Qed.

Lemma exit_bridge_ledyard (c : car) (w : world) :
  ledyard (snd (exit_bridge c w)) =
  if failed (hd 0 (oracle w)) then ledyard w
  else fst (leave_bridge c (ledyard w)).
Proof.
  unfold exit_bridge, bind, pthread, get, fprintf_stderr, emit, ret.
  destruct (failed (hd 0 (oracle w))); [reflexivity|].
  cbn [ledyard].
  destruct (leave_bridge c (ledyard w)) as [s' [n1 n2]].
  unfold modify. cbn [fst ledyard oracle trace].
  match goal with
  | |- context [signal_loop ?m ?cv ?n ?w0] =>
      pose proof (signal_loop_ledyard m cv n w0) as H1;
      destruct (signal_loop m cv n w0) as [e1 w1]
  end.
  cbn [snd ledyard] in H1.
  destruct e1; [exact H1|].
  match goal with
  | |- context [signal_loop ?m ?cv ?n ?w0] =>
      pose proof (signal_loop_ledyard m cv n w0) as H2;
      destruct (signal_loop m cv n w0) as [e2 w2]
  end.
  cbn [snd] in H2.
  destruct e2; [cbn; congruence|].
  unfold printf, emit. cbn.
  destruct (failed (hd 0 (oracle w2))); cbn; congruence.
Qed.

Lemma on_bridge_ledyard (c : car) (w : world) :
  ledyard (snd (on_bridge c w)) = ledyard w.
Proof.
  unfold on_bridge, bind, pthread, get, printf, fprintf_stderr, emit, ret.
  destruct (failed (hd 0 (oracle w))); [reflexivity|].
  cbn. destruct (failed (hd 0 (tl (oracle w)))); reflexivity.
Qed.

(** ** The invariant of the monitor is kept *)

Ltac bridge_crunch :=
  unfold traffic_ok, bridge_ok, set_num_cars, set_dir, strcpy_str_dir,
    store, load, hanover_car, norwich_car in *;
  cbn in *;
  unfold MAX_CARS, NO_DIRECTION, TO_HANOVER, TO_NORWICH in *.

Lemma traffic_store (p : wait_ptr) (v : Z) (s : bridge_state) cro :
  traffic_ok s cro -> traffic_ok (store p v s) cro.
Proof. destruct p; exact (fun H => H). Qed.

Lemma traffic_drop (s : bridge_state) (c : car) cro :
  traffic_ok s (c :: cro) -> traffic_ok s cro.
Proof.
  intros (Hb & Hn & Hd). split; [exact Hb|]. split.
  - cbn [List.length] in Hn. lia.
  - inversion Hd; assumption.
Qed.

Lemma traffic_boarded (c : car) (s s' : bridge_state) cro :
  initialized c -> traffic_ok s cro -> boarded c s = Some s' ->
  traffic_ok s' (c :: cro).
Proof.
  intros Hc ((Hr & Hz & Hdir) & Hn & Hd) Ha. unfold boarded in Ha.
  destruct (Z.eqb_spec (dir s) (other_dir c)) as [|Ho]; [discriminate|].
  destruct (Z.geb_spec (num_cars s) MAX_CARS) as [|Hlt]; [discriminate|].
  assert (Hi : incr (num_cars s) = num_cars s + 1).
  { apply incr_small. unfold INT_MIN, INT_MAX, MAX_CARS in *. lia. }
  destruct (Z.eqb_spec (dir s) NO_DIRECTION) as [Hno|Hno].
  - destruct (Z.eqb_spec (num_cars s) 0) as [H0|H0]; [|discriminate].
    cbn [negb] in Ha. injection Ha as <-.
    assert (Hcro : cro = []).
    { destruct cro; [reflexivity|]. cbn [List.length] in Hn. lia. }
    subst cro.
    destruct (initialized_inv c Hc) as [-> | ->]; bridge_crunch;
      rewrite Hi; repeat split; try lia; auto.
  - injection Ha as <-.
    assert (Hsame : car_dir c = dir s).
    { destruct (initialized_inv c Hc) as [-> | ->]; bridge_crunch; lia. }
    destruct (wait_dir c); bridge_crunch; rewrite Hi;
      repeat split; try lia; auto.
Qed.

Lemma traffic_leave (c : car) (s : bridge_state) cro1 cro2 :
  traffic_ok s (cro1 ++ c :: cro2) ->
  traffic_ok (fst (leave_bridge c s)) (cro1 ++ cro2).
Proof.
  intros ((Hr & Hz & Hdir) & Hn & Hd).
  rewrite List.length_app in Hn. cbn [List.length] in Hn.
  assert (Hlen : Z.of_nat (List.length (cro1 ++ cro2)) <= num_cars s - 1).
  { rewrite List.length_app. lia. }
  assert (Hdec : decr (num_cars s) = num_cars s - 1).
  { apply decr_small. unfold INT_MIN, INT_MAX, MAX_CARS in *. lia. }
  assert (Hd' : Forall (fun c0 => initialized c0 /\ car_dir c0 = dir s)
                       (cro1 ++ cro2)).
  { apply Forall_app in Hd as [H1 H2]. apply Forall_app. split; [exact H1|].
    inversion H2; assumption. }
  unfold leave_bridge. cbn [num_cars set_num_cars].
  rewrite Hdec.
  destruct (Z.eqb_spec (num_cars s - 1) 0) as [E|E].
  - rewrite E in *.
    assert (Hnil : cro1 ++ cro2 = []).
    { destruct (cro1 ++ cro2); [reflexivity|]. cbn [List.length] in Hlen. lia. }
    rewrite Hnil in *.
    bridge_crunch. repeat split; try lia; auto.
  - bridge_crunch. repeat split; try lia; auto.
Qed.

Lemma lobby_settles (c : car) (w : world) lob cro :
  initialized c ->
  traffic_ok (ledyard w) cro -> Forall initialized lob ->
  system_ok (settle c (waiting_lobby c w) lob cro).
Proof.
  intros Hc Ht Hl. rewrite waiting_lobby_unfold. unfold settle.
  destruct (must_wait c (ledyard w)).
  - cbn. split; [exact Ht|]. constructor; assumption.
  - pose proof (getting_on_ledyard c w) as Hg.
    destruct (boarded c (ledyard w)) as [s'|] eqn:Ha;
      destruct Hg as [Hs Ho]; rewrite Ho.
    + pose proof (traffic_boarded c _ s' cro Hc Ht Ha) as Ht'.
      destruct (failed (hd 0 (oracle w)));
        unfold system_ok; cbn -[getting_on]; rewrite Hs;
        (split; [|exact Hl]); [eapply traffic_drop|]; exact Ht'.
    + unfold system_ok. cbn -[getting_on]. rewrite Hs. split; assumption.
Qed.

Lemma step_preserves (s s' : system) :
  system_ok s -> step s s' -> system_ok s'.
Proof.
  intros [Ht Hl] Hstep. destruct Hstep; cbn in Ht, Hl.
  - rewrite arrive_bridge_unfold.
    destruct (failed (hd 0 (oracle w))).
    + split; assumption.
    + apply lobby_settles; auto. apply traffic_store. exact Ht.
  - apply Forall_app in Hl as [Hl1 Hl2].
    assert (Hc : initialized c) by (inversion Hl2; assumption).
    assert (Hl' : Forall initialized (lob1 ++ lob2)).
    { apply Forall_app. split; [exact Hl1|]. inversion Hl2; assumption. }
    rewrite arrive_bridge_wake_unfold.
    destruct (failed (hd 0 (oracle w))).
    + split; assumption.
    + apply lobby_settles; auto.
  - split; [|exact Hl]. cbn [sys_world crossing].
    rewrite on_bridge_ledyard. exact Ht.
  - split; [|exact Hl]. cbn [sys_world crossing].
    rewrite exit_bridge_ledyard.
    destruct (failed (hd 0 (oracle w))).
    + destruct Ht as (Hb & Hn & Hd). split; [exact Hb|]. split.
      * rewrite List.length_app in *. cbn [List.length] in Hn. lia.
      * apply Forall_app in Hd as [H1 H2]. apply Forall_app.
        split; [exact H1|]. inversion H2; assumption.
    + apply traffic_leave. exact Ht.
Qed.

Lemma initialize_bridge_ok (w0 w : world) :
  initialize_bridge w0 = (0, w) -> bridge_ok (ledyard w).
Proof.
  unfold initialize_bridge, bind, pthread, fprintf_stderr, emit, modify, ret.
  destruct (failed (hd 0 (oracle w0))); [discriminate|]. cbn.
  destruct (failed (hd 0 (tl (oracle w0)))); [discriminate|]. cbn.
  destruct (failed (hd 0 (tl (tl (oracle w0))))); [discriminate|]. cbn.
  intros H. injection H as <-. cbn.
  unfold bridge_ok, MAX_CARS, NO_DIRECTION. cbn. repeat split; auto; lia.
Qed.

Lemma reachable_ok (s : system) : reachable s -> system_ok s.
Proof.
  induction 1 as [w0 w Hi|s s' _ IH Hs].
  - split; [|constructor]. cbn.
    pose proof (initialize_bridge_ok w0 w Hi) as Hb.
    split; [exact Hb|]. split; [|constructor].
    cbn. destruct Hb as [Hr _]. lia.
  - eapply step_preserves; eassumption.
Qed.

(** ** What each critical section appends to the log *)

Lemma emitted_app (w w' : world) (evs : list event) :
  trace w' = trace w ++ evs -> emitted w w' = evs.
Proof.
  intros H. unfold emitted. rewrite H.
  rewrite skipn_app, skipn_all, Nat.sub_diag. reflexivity.
Qed.

Lemma signals_app (a b : list event) :
  signals (a ++ b) = signals a ++ signals b.
Proof. unfold signals. apply flat_map_app. Qed.

Lemma signal_failed_app (a b : list event) :
  signal_failed (a ++ b) = signal_failed a || signal_failed b.
Proof. unfold signal_failed. apply existsb_app. Qed.

Lemma firstn_repeat {A} (a : A) (k n : nat) :
  (k <= n)%nat -> firstn k (repeat a n) = repeat a k.
Proof.
  revert n. induction k as [|k IH]; intros n Hk; [reflexivity|].
  destruct n as [|n]; [lia|]. cbn. rewrite IH by lia. reflexivity.
Qed.

Lemma signal_loop_trace (msg : string) (cv : cond) (n : nat) (w : world) :
  exists (k : nat) (evs : list event),
    trace (snd (signal_loop msg cv n w)) = trace w ++ evs /\
    signals evs = repeat cv k /\
    (k <= n)%nat /\
    (fst (signal_loop msg cv n w) = false -> k = n) /\
    signal_failed evs = fst (signal_loop msg cv n w).
Proof.
  revert w. induction n as [|n IH]; intros w.
  - exists 0%nat, []. cbn. rewrite app_nil_r. auto.
  - cbn [signal_loop]. unfold bind, pthread.
    destruct (failed (hd 0 (oracle w))) eqn:Hf.
    + exists 1%nat,
        [Call (cond_signal cv) (hd 0 (oracle w)); Stderr msg []].
      cbn. rewrite Hf, <- app_assoc. cbn.
      repeat split; try lia; discriminate.
    + match goal with
      | |- context [signal_loop msg cv n ?w0] =>
          destruct (IH w0) as (k & evs & Ht & Hs & Hk & Hok & Hno)
      end.
      exists (S k), (Call (cond_signal cv) (hd 0 (oracle w)) :: evs).
      repeat split.
      * rewrite Ht. cbn [trace]. rewrite <- app_assoc. reflexivity.
      * change (signals (Call (cond_signal cv) (hd 0 (oracle w)) :: evs))
          with (cv :: signals evs).
        rewrite Hs. reflexivity.
      * lia.
      * intros H. f_equal. auto.
      * change (signal_failed
                  (Call (cond_signal cv) (hd 0 (oracle w)) :: evs))
          with (failed (hd 0 (oracle w)) || signal_failed evs).
        rewrite Hf. exact Hno.
Qed.

(** The signals of one [exit_bridge]: [k1] on the car's own condition
    variable, then [k2] on the other one; the counts are the two
    quotas unless a [pthread_cond_signal] failed on the way. *)
Lemma exit_bridge_signals (c : car) (w : world) :
  exists k1 k2 : nat,
    signals (emitted w (snd (exit_bridge c w))) =
      repeat (current c) k1 ++ repeat (other c) k2 /\
    (k1 <= Z.to_nat (fst (exit_quotas c w)))%nat /\
    (k2 <= Z.to_nat (snd (exit_quotas c w)))%nat /\
    (k2 <> 0%nat -> k1 = Z.to_nat (fst (exit_quotas c w))) /\
    (signal_failed (emitted w (snd (exit_bridge c w))) = false ->
     k1 = Z.to_nat (fst (exit_quotas c w)) /\
     k2 = Z.to_nat (snd (exit_quotas c w))) /\
    (fst (exit_bridge c w) = 0 ->
     signal_failed (emitted w (snd (exit_bridge c w))) = false).
Proof.
  unfold exit_quotas, exit_bridge, bind, pthread, get, fprintf_stderr, emit,
    ret.
  destruct (failed (hd 0 (oracle w))) eqn:Hlock.
  - exists 0%nat, 0%nat. cbn [snd fst trace].
    rewrite (emitted_app w _
      [Call mutex_lock (hd 0 (oracle w));
       Stderr "Error acquiring lock for exit_bridge()\n" []])
      by (cbn; rewrite <- app_assoc; reflexivity).
    cbn. repeat split; auto.
  - cbn [ledyard].
    destruct (leave_bridge c (ledyard w)) as [s' [n1 n2]].
    unfold modify. cbn [fst snd ledyard oracle trace].
    match goal with
    | |- context [signal_loop ?m ?cv ?n ?w0] =>
        destruct (signal_loop_trace m cv n w0)
          as (k1 & evs1 & Ht1 & Hs1 & Hk1 & Hok1 & Hno1);
        destruct (signal_loop m cv n w0) as [e1 w1]
    end.
    cbn [fst snd trace] in *.
    destruct e1.
    { exists k1, 0%nat. cbn [fst snd].
      rewrite (emitted_app w w1
                 (Call mutex_lock (hd 0 (oracle w)) :: evs1))
        by (rewrite Ht1, <- app_assoc; reflexivity).
      change (signals (Call mutex_lock (hd 0 (oracle w)) :: evs1))
        with (signals evs1).
      change (signal_failed (Call mutex_lock (hd 0 (oracle w)) :: evs1))
        with (signal_failed evs1).
      rewrite Hs1, Hno1, app_nil_r.
      repeat split; auto; try lia; try discriminate. }
    assert (k1 = Z.to_nat n1) as -> by auto.
    match goal with
    | |- context [signal_loop ?m ?cv ?n ?w0] =>
        destruct (signal_loop_trace m cv n w0)
          as (k2 & evs2 & Ht2 & Hs2 & Hk2 & Hok2 & Hno2);
        destruct (signal_loop m cv n w0) as [e2 w2]
    end.
    cbn [fst snd trace] in *.
    destruct e2.
    { exists (Z.to_nat n1), k2. cbn [fst snd].
      rewrite (emitted_app w w2
                 ((Call mutex_lock (hd 0 (oracle w)) :: evs1) ++ evs2))
        by (rewrite Ht2, Ht1, <- !app_assoc; reflexivity).
      rewrite signals_app, signal_failed_app.
      change (signals (Call mutex_lock (hd 0 (oracle w)) :: evs1))
        with (signals evs1).
      change (signal_failed (Call mutex_lock (hd 0 (oracle w)) :: evs1))
        with (signal_failed evs1).
      rewrite Hs1, Hs2, Hno1, Hno2.
      repeat split; auto; try lia; try discriminate. }
    assert (k2 = Z.to_nat n2) as -> by auto.
    exists (Z.to_nat n1), (Z.to_nat n2).
    unfold printf, emit. cbn [fst snd ledyard oracle trace].
    set (tail :=
      [Printf "--- A car has exited for %s ---\n" [ArgStr (car_str_dir c)];
       Call mutex_unlock (hd 0 (oracle w2))] ++
      (if failed (hd 0 (oracle w2))
       then [Stderr "Error releasing lock for exit_bridge()\n" []]
       else [])).
    assert (Hsig : signals tail = [] /\ signal_failed tail = false).
    { unfold tail. destruct (failed (hd 0 (oracle w2))); split; reflexivity. }
    destruct Hsig as [Hsig Hfail].
    match goal with
    | |- context [emitted w (snd ?r)] =>
        assert (He : emitted w (snd r) =
                     ((Call mutex_lock (hd 0 (oracle w)) :: evs1) ++ evs2)
                     ++ tail)
    end.
    { apply emitted_app. unfold tail.
      destruct (failed (hd 0 (oracle w2))); cbn [snd trace];
        rewrite Ht2, Ht1, <- !app_assoc; cbn; rewrite <- ?app_assoc;
        reflexivity. }
    rewrite He, !signals_app, !signal_failed_app, Hsig, Hfail.
    change (signals (Call mutex_lock (hd 0 (oracle w)) :: evs1))
      with (signals evs1).
    change (signal_failed (Call mutex_lock (hd 0 (oracle w)) :: evs1))
      with (signal_failed evs1).
    rewrite Hs1, Hs2, Hno1, Hno2, app_nil_r.
    repeat split; auto.
Qed.

(** ** Arrival *)

Lemma boarded_effect (c : car) (s s' : bridge_state) :
  boarded c s = Some s' ->
  must_wait c s = false /\
  num_cars s' = incr (num_cars s) /\
  load (wait_dir c) s' = decr (load (wait_dir c) s) /\
  dir s' = (if dir s =? NO_DIRECTION then car_dir c else dir s).
Proof.
  unfold boarded, must_wait. intros H.
  destruct (dir s =? other_dir c); [discriminate|].
  destruct (num_cars s >=? MAX_CARS); [discriminate|].
  destruct (dir s =? NO_DIRECTION).
  - destruct (negb (num_cars s =? 0)); [discriminate|].
    injection H as <-. destruct (wait_dir c); cbn; auto.
  - injection H as <-. destruct (wait_dir c); cbn; auto.
Qed.

Lemma must_wait_iff (c : car) (s : bridge_state) :
  must_wait c s = true <-> dir s = other_dir c \/ num_cars s >= MAX_CARS.
Proof.
  unfold must_wait. rewrite orb_true_iff, Z.eqb_eq, Z.geb_le. lia.
Qed.

(** One evaluation of the loop condition: the car blocks and nothing
    changes, or an error return leaves the structure as it is, or the
    car is admitted. *)
Lemma waiting_lobby_cases (c : car) (w : world) :
  (must_wait c (ledyard w) = true /\
   waiting_lobby c w = (Blocked (current c), w)) \/
  (must_wait c (ledyard w) = false /\
   ledyard (snd (waiting_lobby c w)) = ledyard w /\
   fst (waiting_lobby c w) = Returned (-1)) \/
  (exists s', boarded c (ledyard w) = Some s' /\
   ledyard (snd (waiting_lobby c w)) = s' /\
   fst (waiting_lobby c w) =
     Returned (if failed (hd 0 (oracle w)) then -1 else 0)).
Proof.
  rewrite waiting_lobby_unfold.
  destruct (must_wait c (ledyard w)) eqn:Hm; [left; auto|right].
  pose proof (getting_on_ledyard c w) as Hg.
  destruct (boarded c (ledyard w)) as [s'|].
  - right. exists s'. tauto.
  - left. tauto.
Qed.

Lemma store_frame (p : wait_ptr) (v : Z) (s : bridge_state) :
  dir (store p v s) = dir s /\ num_cars (store p v s) = num_cars s /\
  str_dir (store p v s) = str_dir s /\ load p (store p v s) = v.
Proof. destruct p; cbn; auto. Qed.

(** What an admission through the loop head changes, and when. *)
Lemma waiting_lobby_boards (c : car) (w : world) :
  num_cars (ledyard (snd (waiting_lobby c w))) <> num_cars (ledyard w) \/
  fst (waiting_lobby c w) = Returned 0 ->
  dir (ledyard w) <> other_dir c /\
  num_cars (ledyard w) < MAX_CARS /\
  num_cars (ledyard (snd (waiting_lobby c w))) = incr (num_cars (ledyard w)) /\
  load (wait_dir c) (ledyard (snd (waiting_lobby c w))) =
    decr (load (wait_dir c) (ledyard w)).
Proof.
  intros H.
  destruct (waiting_lobby_cases c w)
    as [[_ E] | [(_ & Es & Er) | (s' & Ha & Es & Er)]].
  - rewrite E in H. cbn in H. destruct H as [H|H]; [tauto|discriminate].
  - rewrite Es, Er in H. destruct H as [H|H]; [tauto|discriminate].
  - apply boarded_effect in Ha as (Hm & Hn & Hw & _).
    rewrite Es.
    assert (Hnot : ~ (dir (ledyard w) = other_dir c \/
                      num_cars (ledyard w) >= MAX_CARS)).
    { rewrite <- must_wait_iff, Hm. discriminate. }
    repeat split; auto; lia.
Qed.

Lemma waiting_lobby_blocks (c : car) (w : world) :
  dir (ledyard w) = other_dir c \/ num_cars (ledyard w) >= MAX_CARS ->
  waiting_lobby c w = (Blocked (current c), w).
Proof.
  intros H. apply must_wait_iff in H.
  rewrite waiting_lobby_unfold, H. reflexivity.
Qed.

(** A change of [num_cars] by [arrive_bridge], or its return code 0,
    means the loop condition was false. *)
Lemma admission_effect_guard (c : car) (w : world) (r : outcome * world) :
  r = arrive_bridge c w \/ r = arrive_bridge_wake c w ->
  num_cars (ledyard (snd r)) <> num_cars (ledyard w) \/ fst r = Returned 0 ->
  ~ (dir (ledyard w) = other_dir c \/ num_cars (ledyard w) >= MAX_CARS) /\
  num_cars (ledyard (snd r)) = incr (num_cars (ledyard w)).
Proof.
  pose proof (store_frame (wait_dir c)
                (incr (load (wait_dir c) (ledyard w))) (ledyard w))
    as (Fd & Fn & _ & Fl).
  assert (Gd : dir (ledyard (in_lobby c w)) = dir (ledyard w)) by exact Fd.
  assert (Gn : num_cars (ledyard (in_lobby c w)) = num_cars (ledyard w))
    by exact Fn.
  intros Hr H.
  destruct Hr as [-> | ->];
    [rewrite arrive_bridge_unfold in * | rewrite arrive_bridge_wake_unfold in *];
    destruct (failed (hd 0 (oracle w)));
    try (cbn in H; destruct H as [H|H]; [tauto|discriminate]).
  - rewrite <- Gn in H.
    apply waiting_lobby_boards in H as (H1 & H2 & H3 & _).
    rewrite Gd in H1. rewrite Gn in H2, H3.
    split; [lia|exact H3].
  - change (ledyard w) with (ledyard (woken c w)) in H.
    apply waiting_lobby_boards in H as (H1 & H2 & H3 & _).
    cbn [woken ledyard] in H1, H2, H3. split; [lia|exact H3].
Qed.

(** C3: [arrive_bridge], on entry and each time it is woken, admits the
    car (its waiting count decremented, [num_cars] incremented) only
    where the bridge direction is not the opposite of the car's and
    [num_cars < MAX_CARS]; while the direction is opposite or
    [num_cars >= MAX_CARS] the car blocks on its own condition variable
    with [num_cars] and [dir] untouched, and so does a car heading the
    same way as a full bridge. *)
Theorem admission_predicate (c : car) (w : world) :
  let s := ledyard w in
  let full_or_opposite := dir s = other_dir c \/ num_cars s >= MAX_CARS in
  (* admitted only when the predicate is false *)
  (forall r, r = arrive_bridge c w \/ r = arrive_bridge_wake c w ->
     num_cars (ledyard (snd r)) <> num_cars s \/ fst r = Returned 0 ->
     ~ full_or_opposite /\
     num_cars (ledyard (snd r)) = incr (num_cars s)) /\
  (fst (arrive_bridge c w) = Returned 0 ->
     load (wait_dir c) (ledyard (snd (arrive_bridge c w))) =
       decr (incr (load (wait_dir c) s))) /\
  (fst (arrive_bridge_wake c w) = Returned 0 ->
     load (wait_dir c) (ledyard (snd (arrive_bridge_wake c w))) =
       decr (load (wait_dir c) s)) /\
  (* blocked while the predicate is true *)
  (failed (hd 0 (oracle w)) = false -> full_or_opposite ->
     fst (arrive_bridge c w) = Blocked (current c) /\
     ledyard (snd (arrive_bridge c w)) =
       store (wait_dir c) (incr (load (wait_dir c) s)) s /\
     fst (arrive_bridge_wake c w) = Blocked (current c) /\
     ledyard (snd (arrive_bridge_wake c w)) = s) /\
  (* capacity alone blocks a car of the bridge's own direction *)
  (failed (hd 0 (oracle w)) = false ->
   dir s = car_dir c -> num_cars s >= MAX_CARS ->
     fst (arrive_bridge c w) = Blocked (current c) /\
     fst (arrive_bridge_wake c w) = Blocked (current c)).
Proof.
  cbv zeta.
  pose proof (store_frame (wait_dir c)
                (incr (load (wait_dir c) (ledyard w))) (ledyard w))
    as (Fd & Fn & _ & Fl).
  assert (Gd : dir (ledyard (in_lobby c w)) = dir (ledyard w)) by exact Fd.
  assert (Gn : num_cars (ledyard (in_lobby c w)) = num_cars (ledyard w))
    by exact Fn.
  assert (Hblock :
    failed (hd 0 (oracle w)) = false ->
    dir (ledyard w) = other_dir c \/ num_cars (ledyard w) >= MAX_CARS ->
    arrive_bridge c w = (Blocked (current c), in_lobby c w) /\
    arrive_bridge_wake c w = (Blocked (current c), woken c w)).
  { intros Hl Hp.
    rewrite arrive_bridge_unfold, arrive_bridge_wake_unfold, Hl.
    split; apply waiting_lobby_blocks; [rewrite Gd, Gn|]; exact Hp. }
  split; [|split; [|split; [|split]]].
  - intros r Hr H. exact (admission_effect_guard c w r Hr H).
  - intros H. rewrite arrive_bridge_unfold in *.
    destruct (failed (hd 0 (oracle w))); [discriminate|].
    pose proof (waiting_lobby_boards c (in_lobby c w) (or_intror H))
      as (_ & _ & _ & H4).
    rewrite H4. cbn [in_lobby ledyard]. rewrite Fl. reflexivity.
  - intros H. rewrite arrive_bridge_wake_unfold in *.
    destruct (failed (hd 0 (oracle w))); [discriminate|].
    pose proof (waiting_lobby_boards c (woken c w) (or_intror H))
      as (_ & _ & _ & H4).
    exact H4.
  - intros Hl Hp. destruct (Hblock Hl Hp) as [-> ->]. cbn. auto.
  - intros Hl Hd Hn. destruct (Hblock Hl (or_intror Hn)) as [-> ->].
    cbn. auto.
Qed.

Lemma admission_predicate_witness :
  fst (arrive_bridge hanover_car full_bridge) = Blocked want_to_hanover /\
  num_cars (ledyard (snd (arrive_bridge norwich_car empty_bridge))) = 1.
Proof.
  split.
  - destruct (admission_predicate hanover_car full_bridge)
      as (_ & _ & _ & _ & H).
    apply H; [reflexivity | reflexivity | cbn; unfold MAX_CARS; lia].
  - destruct (admission_predicate norwich_car empty_bridge) as (H & _).
    destruct (H (arrive_bridge norwich_car empty_bridge)) as [_ E].
    + left. reflexivity.
    + right. reflexivity.
    + exact E.
Defined.

(** ** The bridge under any interleaving *)

Lemma reachable_sys0 : reachable sys0.
Proof. apply (reach_init boot). vm_compute. reflexivity. Qed.

(** An arrival from a computed state lands in the computed next state. *)
Lemma arrival_reaches (c : car) (s s' : system) :
  initialized c -> reachable s ->
  settle c (arrive_bridge c (sys_world s)) (lobby s) (crossing s) = s' ->
  reachable s'.
Proof.
  intros Hc Hr <-. apply (reach_step s); [exact Hr|].
  destruct s as [w lob cro]. apply step_arrive, Hc.
Qed.

Lemma reachable_sys1 : reachable sys1.
Proof.
  apply (arrival_reaches hanover_car sys0);
    [exact initialized_hanover | exact reachable_sys0 |].
  vm_compute. reflexivity.
Qed.

Lemma reachable_sys2 : reachable sys2.
Proof.
  apply (arrival_reaches hanover_car sys1);
    [exact initialized_hanover | exact reachable_sys1 |].
  vm_compute. reflexivity.
Qed.

Lemma reachable_sys3 : reachable sys3.
Proof.
  apply (arrival_reaches norwich_car sys2);
    [exact initialized_norwich | exact reachable_sys2 |].
  vm_compute. reflexivity.
Qed.




(** C2: from the initialised bridge, with [exit_bridge] called only by
    cars whose [arrive_bridge] returned 0 and that have not left yet,
    every state satisfies [0 <= num_cars <= MAX_CARS] and
    [num_cars == 0] iff [dir == NO_DIRECTION], and every further step
    of [arrive_bridge] (entry or wake-up), [on_bridge] or [exit_bridge]
    keeps both. *)
Theorem invariants_preserved (s : system) :
  reachable s ->
  let inv (b : bridge_state) :=
    0 <= num_cars b <= MAX_CARS /\
    (num_cars b = 0 <-> dir b = NO_DIRECTION) in
  inv (ledyard (sys_world s)) /\
  forall s', step s s' -> inv (ledyard (sys_world s')).
Proof.
  intros Hr. cbv zeta. split.
  - apply reachable_ok in Hr as [((H1 & H2 & _) & _) _]. auto.
  - intros s' Hs.
    pose proof (reachable_ok s' (reach_step s s' Hr Hs))
      as [((H1 & H2 & _) & _) _].
    auto.
Qed.

Lemma invariants_preserved_witness :
  num_cars (ledyard (sys_world sys3)) = 2 /\
  0 <= num_cars (ledyard (sys_world sys3)) <= MAX_CARS /\
  (num_cars (ledyard (sys_world sys3)) = 0 <->
   dir (ledyard (sys_world sys3)) = NO_DIRECTION).
Proof.
  split; [reflexivity|].
  exact (proj1 (invariants_preserved sys3 reachable_sys3)).
Defined.

(** ** The checks after the wait loop *)

Lemma board_trace (c : car) (w : world) :
  trace (snd (board c w)) =
  trace w ++
  [Printf "+++ A car got on bridge to %s +++\n" [ArgStr (car_str_dir c)];
   Call mutex_unlock (hd 0 (oracle w))] ++
  (if failed (hd 0 (oracle w))
   then [Stderr "Error releasing lock for arrive_bridge()\n" []]
   else []).
Proof.
  unfold board, bind, modify, printf, fprintf_stderr, emit, pthread, ret.
  cbn. destruct (failed (hd 0 (oracle w))); cbn;
    rewrite <- ?app_assoc; reflexivity.
Qed.

(** C7: in a state where the wait loop exits ([dir] not the opposite
    of the car's direction and [num_cars < MAX_CARS]) and the bridge
    invariant [num_cars == 0] iff [dir == NO_DIRECTION] holds, the
    section after the loop takes none of its three error returns
    (collision, overload, no direction with cars): it goes on to admit
    the car, prints none of the three reports, and returns -1 only if
    the final unlock fails. *)
Theorem failure_branches_unreachable (c : car) (w : world) :
  let s := ledyard w in
  dir s <> other_dir c ->
  num_cars s < MAX_CARS ->
  (num_cars s = 0 <-> dir s = NO_DIRECTION) ->
  getting_on c w =
    board c (mk_world
               (if dir s =? NO_DIRECTION
                then strcpy_str_dir (car_str_dir c) (set_dir (car_dir c) s)
                else s)
               (oracle w) (trace w)) /\
  fst (getting_on c w) =
    Returned (if failed (hd 0 (oracle w)) then -1 else 0) /\
  existsb invariant_report (emitted w (snd (getting_on c w))) = false /\
  waiting_lobby c w = getting_on c w.
Proof.
  cbv zeta. intros Hd Hn Hz.
  assert (Hg : getting_on c w =
    board c (mk_world
               (if dir (ledyard w) =? NO_DIRECTION
                then strcpy_str_dir (car_str_dir c)
                       (set_dir (car_dir c) (ledyard w))
                else ledyard w)
               (oracle w) (trace w))).
  { unfold getting_on, bind, get, modify.
    destruct (Z.eqb_spec (dir (ledyard w)) (other_dir c)); [contradiction|].
    destruct (Z.geb_spec (num_cars (ledyard w)) MAX_CARS); [lia|].
    destruct (Z.eqb_spec (dir (ledyard w)) NO_DIRECTION) as [E|E].
    - apply Hz in E. rewrite E. cbn. reflexivity.
    - destruct w; reflexivity. }
  split; [exact Hg|]. split; [|split].
  - rewrite Hg. unfold board, bind, modify, printf, fprintf_stderr, emit,
      pthread, ret. cbn.
    destruct (failed (hd 0 (oracle w))); reflexivity.
  - rewrite Hg.
    match goal with
    | |- context [board c ?w0] =>
        rewrite (emitted_app w (snd (board c w0)) _ (board_trace c w0))
    end.
    cbn [oracle]. destruct (failed (hd 0 (oracle w))); reflexivity.
  - rewrite waiting_lobby_unfold.
    assert (Hm : must_wait c (ledyard w) = false).
    { destruct (must_wait c (ledyard w)) eqn:E; [|reflexivity].
      apply must_wait_iff in E. lia. }
    rewrite Hm. reflexivity.
Qed.

Lemma failure_branches_unreachable_witness :
  fst (getting_on norwich_car empty_bridge) = Returned 0 /\
  dir (ledyard (snd (getting_on norwich_car empty_bridge))) = TO_NORWICH.
Proof.
  assert (H1 : dir (ledyard empty_bridge) <> other_dir norwich_car)
    by discriminate.
  assert (H2 : num_cars (ledyard empty_bridge) < MAX_CARS) by reflexivity.
  assert (H3 : num_cars (ledyard empty_bridge) = 0 <->
               dir (ledyard empty_bridge) = NO_DIRECTION)
    by (split; reflexivity).
  destruct (failure_branches_unreachable norwich_car empty_bridge H1 H2 H3)
    as (_ & E & _).
  split; [exact E|reflexivity].
Defined.

(** ** Departure *)

Lemma int_wrap_le (z : Z) : INT_MIN <= z -> int_wrap z <= z.
Proof.
  unfold INT_MIN, int_wrap. intros H.
  assert (H0 : 0 <= z + 2 ^ 31) by lia.
  pose proof (Z.mod_le (z + 2 ^ 31) (2 ^ 32) H0 ltac:(lia)). lia.
Qed.


(** Lines 297-304 for a count that does not wrap. *)
Lemma leave_bridge_exact (c : car) (s : bridge_state) :
  INT_MIN + MAX_CARS + 1 < num_cars s <= INT_MAX ->
  let n' := num_cars s - 1 in
  leave_bridge c s =
  if n' =? 0 then
    (mk_bridge "Neither" NO_DIRECTION n' (wait_hanover s) (wait_norwich s),
     (Z.min (MAX_CARS - n') (load (wait_dir c) s),
      Z.min MAX_CARS (load (wait_other_dir c) s)))
  else
    (mk_bridge (str_dir s) (dir s) n' (wait_hanover s) (wait_norwich s),
     (Z.min (MAX_CARS - n') (load (wait_dir c) s), 0)).
Proof.
  intros H. cbv zeta. unfold leave_bridge.
  assert (Hd : decr (num_cars s) = num_cars s - 1).
  { apply decr_small. unfold INT_MIN, INT_MAX, MAX_CARS in *. lia. }
  cbn [num_cars set_num_cars]. rewrite Hd.
  assert (Hs : int_sub MAX_CARS (num_cars s - 1) = MAX_CARS - (num_cars s - 1)).
  { apply int_wrap_id. unfold int_range, INT_MIN, INT_MAX, MAX_CARS in *. lia. }
  destruct (num_cars s - 1 =? 0);
    cbn [num_cars set_num_cars set_dir strcpy_str_dir str_dir dir
         wait_hanover wait_norwich];
    rewrite Hs, !min_is_Zmin;
    destruct (wait_dir c), (wait_other_dir c); reflexivity.
Qed.

(** C4: called with [num_cars >= 1] (and the lock acquired),
    [exit_bridge] decrements [num_cars]; if the new count is 0 it sets
    the direction to [NO_DIRECTION] and the opposite-direction quota is
    [min(MAX_CARS, waiting[opposite])], otherwise that quota is 0; the
    same-direction quota is [min(MAX_CARS - num_cars, waiting[same])]
    with the new count; the waiting counts stay as they are, and these
    quotas are the numbers of signals sent when no signal call fails. *)
Theorem departure_quotas (c : car) (w : world) :
  let s := ledyard w in
  let s' := ledyard (snd (exit_bridge c w)) in
  failed (hd 0 (oracle w)) = false ->
  1 <= num_cars s <= INT_MAX ->
  num_cars s' = num_cars s - 1 /\
  dir s' = (if num_cars s' =? 0 then NO_DIRECTION else dir s) /\
  wait_hanover s' = wait_hanover s /\ wait_norwich s' = wait_norwich s /\
  exit_quotas c w =
    (Z.min (MAX_CARS - num_cars s') (load (wait_dir c) s),
     if num_cars s' =? 0 then Z.min MAX_CARS (load (wait_other_dir c) s)
     else 0) /\
  (signal_failed (emitted w (snd (exit_bridge c w))) = false ->
   signals (emitted w (snd (exit_bridge c w))) =
     repeat (current c) (Z.to_nat (fst (exit_quotas c w))) ++
     repeat (other c) (Z.to_nat (snd (exit_quotas c w)))).
Proof.
  cbv zeta. intros Hl Hn.
  assert (Hx : INT_MIN + MAX_CARS + 1 < num_cars (ledyard w) <= INT_MAX)
    by (unfold INT_MIN, MAX_CARS in *; lia).
  pose proof (leave_bridge_exact c (ledyard w) Hx) as Hlb. cbv zeta in Hlb.
  rewrite exit_bridge_ledyard. unfold exit_quotas. rewrite Hl, Hlb.
  split; [|split; [|split; [|split; [|split]]]].
  1-5: destruct (num_cars (ledyard w) - 1 =? 0) eqn:E; cbn; rewrite ?E;
       reflexivity.
  intros Hf.
  destruct (exit_bridge_signals c w) as (k1 & k2 & Hs & _ & _ & _ & Hk & _).
  destruct (Hk Hf) as [-> ->].
  unfold exit_quotas in Hs. rewrite Hl, Hlb in Hs. exact Hs.
Qed.

Lemma departure_quotas_witness :
  exit_quotas hanover_car last_car_out = (3, 2) /\
  num_cars (ledyard (snd (exit_bridge hanover_car last_car_out))) = 0 /\
  dir (ledyard (snd (exit_bridge hanover_car last_car_out))) = NO_DIRECTION.
Proof.
  assert (Hl : failed (hd 0 (oracle last_car_out)) = false) by reflexivity.
  assert (Hn : 1 <= num_cars (ledyard last_car_out) <= INT_MAX)
    by (cbn; unfold INT_MAX; lia).
  destruct (departure_quotas hanover_car last_car_out Hl Hn)
    as (H1 & H2 & _ & _ & H5 & _).
  split; [|split].
  - rewrite H5. reflexivity.
  - rewrite H1. reflexivity.
  - rewrite H2, H1. reflexivity.
Defined.

(** C10: [exit_bridge] does not look at [num_cars] before decrementing
    it.  Called (lock acquired) with [num_cars == 0] it leaves
    [num_cars == -1], keeps the direction (so [NO_DIRECTION] stays),
    sets the same-direction quota to
    [min(MAX_CARS + 1, waiting[same])] and the other quota to 0: the
    bound [0 <= num_cars] and the quota bound [MAX_CARS] are lost. *)
Theorem exit_without_admission (c : car) (w : world) :
  let s := ledyard w in
  let s' := ledyard (snd (exit_bridge c w)) in
  failed (hd 0 (oracle w)) = false ->
  num_cars s = 0 ->
  num_cars s' = -1 /\
  dir s' = dir s /\
  (dir s = NO_DIRECTION -> dir s' = NO_DIRECTION) /\
  exit_quotas c w = (Z.min (MAX_CARS + 1) (load (wait_dir c) s), 0) /\
  ~ 0 <= num_cars s' /\
  (MAX_CARS < load (wait_dir c) s -> MAX_CARS < fst (exit_quotas c w)).
Proof.
  cbv zeta. intros Hl Hn.
  assert (Hx : INT_MIN + MAX_CARS + 1 < num_cars (ledyard w) <= INT_MAX)
    by (rewrite Hn; unfold INT_MIN, INT_MAX, MAX_CARS; lia).
  pose proof (leave_bridge_exact c (ledyard w) Hx) as Hlb.
  cbv zeta in Hlb. rewrite Hn in Hlb. cbn in Hlb.
  rewrite exit_bridge_ledyard. unfold exit_quotas. rewrite Hl, Hlb. cbn.
  repeat split; auto; unfold MAX_CARS; lia.
Qed.

Lemma exit_without_admission_witness :
  num_cars (ledyard (snd (exit_bridge hanover_car empty_bridge))) = -1 /\
  exit_quotas hanover_car empty_bridge = (4, 0).
Proof.
  assert (Hl : failed (hd 0 (oracle empty_bridge)) = false) by reflexivity.
  assert (Hn : num_cars (ledyard empty_bridge) = 0) by reflexivity.
  destruct (exit_without_admission hanover_car empty_bridge Hl Hn)
    as (H1 & _ & _ & H4 & _).
  split; [exact H1|]. rewrite H4. reflexivity.
Defined.

(** The last car towards Hanover leaves with five cars waiting for
    Hanover and two for Norwich: five signals, room for three. *)
Lemma departure_wake_bound_counterexample :
  let r := exit_bridge hanover_car last_car_out in
  signals (emitted last_car_out (snd r)) =
    [want_to_hanover; want_to_hanover; want_to_hanover;
     want_to_norwich; want_to_norwich] /\
  MAX_CARS - num_cars (ledyard (snd r)) = 3 /\
  ~ Z.of_nat (List.length (signals (emitted last_car_out (snd r))))
    <= MAX_CARS - num_cars (ledyard (snd r)).
Proof.
  cbv zeta. split; [reflexivity|]. split; [reflexivity|].
  intros H. vm_compute in H. apply H. reflexivity.
Qed.

Lemma int_wrap_range (z : Z) : int_range (int_wrap z).
Proof.
  unfold int_range, INT_MIN, INT_MAX, int_wrap.
  pose proof (Z.mod_pos_bound (z + 2 ^ 31) (2 ^ 32) ltac:(lia)). lia.
Qed.

(** Lines 297-304 for any count: the quotas against the room left and
    against the two waiting counts. *)
Lemma leave_bridge_bounds (c : car) (s : bridge_state) :
  let s' := fst (leave_bridge c s) in
  let q := snd (leave_bridge c s) in
  fst q <= MAX_CARS - num_cars s' /\
  fst q <= load (wait_dir c) s /\
  snd q <= Z.max 0 (MAX_CARS - num_cars s') /\
  snd q <= Z.max 0 (load (wait_other_dir c) s) /\
  (num_cars s' <> 0 -> snd q = 0).
Proof.
  cbv zeta. unfold leave_bridge. cbn [num_cars set_num_cars].
  pose proof (int_wrap_range (num_cars s - 1)) as Hr.
  fold (decr (num_cars s)) in Hr.
  assert (Hs : int_sub MAX_CARS (decr (num_cars s))
               <= MAX_CARS - decr (num_cars s)).
  { apply int_wrap_le. unfold int_range, INT_MIN, INT_MAX, MAX_CARS in *. lia. }
  destruct (Z.eqb_spec (decr (num_cars s)) 0) as [E|E];
    cbn [fst snd num_cars set_num_cars set_dir strcpy_str_dir];
    rewrite !min_is_Zmin;
    destruct (wait_dir c), (wait_other_dir c); cbn [load wait_hanover
      wait_norwich set_num_cars set_dir strcpy_str_dir];
    unfold MAX_CARS in *; repeat split; lia.
Qed.

(** C5, as the code has it: in every state in which it is called,
    [exit_bridge] signals its own condition variable, then the other
    one; each of the two batches is at most the room left on the bridge
    after the departure, [MAX_CARS - num_cars] (none if that is
    negative), and at most the number of cars waiting in that
    direction; the other direction is signalled only when the bridge
    has emptied, so while cars remain on the bridge the total stays
    within the room left, and when the bridge empties the two batches
    together may reach twice that room. *)
Theorem departure_wake_bound (c : car) (w : world) :
  let s := ledyard w in
  let r := exit_bridge c w in
  let headroom := Z.max 0 (MAX_CARS - num_cars (ledyard (snd r))) in
  exists k1 k2 : nat,
    signals (emitted w (snd r)) =
      repeat (current c) k1 ++ repeat (other c) k2 /\
    Z.of_nat k1 <= headroom /\
    Z.of_nat k2 <= headroom /\
    Z.of_nat k1 <= Z.max 0 (load (wait_dir c) s) /\
    Z.of_nat k2 <= Z.max 0 (load (wait_other_dir c) s) /\
    (num_cars (ledyard (snd r)) <> 0 ->
     k2 = 0%nat /\
     Z.of_nat (List.length (signals (emitted w (snd r)))) <= headroom) /\
    Z.of_nat (List.length (signals (emitted w (snd r)))) <= 2 * headroom.
Proof.
  cbv zeta.
  destruct (exit_bridge_signals c w) as (k1 & k2 & Hs & H1 & H2 & _).
  exists k1, k2. rewrite Hs, length_app, !repeat_length.
  rewrite exit_bridge_ledyard. unfold exit_quotas in H1, H2.
  destruct (failed (hd 0 (oracle w))).
  - cbn in H1, H2. repeat split; lia.
  - pose proof (leave_bridge_bounds c (ledyard w)) as Hb. cbv zeta in Hb.
    destruct Hb as (B1 & B2 & B3 & B4 & B5).
    repeat split; lia.
Qed.

Lemma departure_wake_bound_witness :
  exists k1 k2 : nat,
    signals (emitted full_bridge (snd (exit_bridge hanover_car full_bridge))) =
      repeat want_to_hanover k1 ++ repeat want_to_norwich k2 /\
    Z.of_nat k1 <= 1 /\ Z.of_nat k2 <= 1.
Proof.
  destruct (departure_wake_bound hanover_car full_bridge)
    as (k1 & k2 & Hs & H1 & H2 & _).
  exists k1, k2. split; [exact Hs|]. split; [exact H1|exact H2].
Defined.

(** C6: in every [exit_bridge] the signals on the car's own condition
    variable all come before any signal on the other one: the signals
    sent are a prefix of [num_sig_current] signals on [car->current]
    followed by [num_sig_other] signals on [car->other], and they are
    exactly that sequence in every call in which no
    [pthread_cond_signal] fails, in particular whenever the call
    returns 0. *)
Theorem signal_order (c : car) (w : world) :
  let q := exit_quotas c w in
  let planned :=
    repeat (current c) (Z.to_nat (fst q)) ++
    repeat (other c) (Z.to_nat (snd q)) in
  let sent := signals (emitted w (snd (exit_bridge c w))) in
  (exists k : nat, sent = firstn k planned) /\
  (signal_failed (emitted w (snd (exit_bridge c w))) = false ->
   sent = planned) /\
  (fst (exit_bridge c w) = 0 -> sent = planned).
Proof.
  cbv zeta.
  destruct (exit_bridge_signals c w)
    as (k1 & k2 & Hs & H1 & H2 & H12 & Hk & H0).
  rewrite Hs.
  assert (Hfull : signal_failed (emitted w (snd (exit_bridge c w))) = false ->
                  repeat (current c) k1 ++ repeat (other c) k2 =
                  repeat (current c) (Z.to_nat (fst (exit_quotas c w))) ++
                  repeat (other c) (Z.to_nat (snd (exit_quotas c w)))).
  { intros Hf. destruct (Hk Hf) as [-> ->]. reflexivity. }
  split; [|split; [exact Hfull|auto]].
  exists (k1 + k2)%nat.
  rewrite firstn_app, repeat_length.
  destruct (Nat.eq_dec k2 0) as [->|Hk2].
  - rewrite Nat.add_0_r, firstn_repeat by exact H1.
    replace (k1 - Z.to_nat (fst (exit_quotas c w)))%nat with 0%nat by lia.
    reflexivity.
  - rewrite (H12 Hk2).
    rewrite firstn_all2 by (rewrite repeat_length; lia).
    replace (Z.to_nat (fst (exit_quotas c w)) + k2 -
             Z.to_nat (fst (exit_quotas c w)))%nat with k2 by lia.
    rewrite firstn_repeat by exact H2. reflexivity.
Qed.

Lemma signal_order_witness :
  signals (emitted last_car_out (snd (exit_bridge hanover_car last_car_out))) =
  [want_to_hanover; want_to_hanover; want_to_hanover;
   want_to_norwich; want_to_norwich].
Proof.
  destruct (signal_order hanover_car last_car_out) as (_ & _ & H).
  rewrite H; reflexivity.
Defined.

(** ** Observation *)

(** C9: [on_bridge] leaves the shared bridge state as it found it, on
    each of its return paths (lock failure, unlock failure, success):
    [dir], [str_dir], [num_cars], [wait_hanover] and [wait_norwich] are
    the same before and after. *)
Theorem on_bridge_pure (c : car) (w : world) :
  let s := ledyard w in
  let s' := ledyard (snd (on_bridge c w)) in
  s' = s /\
  dir s' = dir s /\ str_dir s' = str_dir s /\ num_cars s' = num_cars s /\
  wait_hanover s' = wait_hanover s /\ wait_norwich s' = wait_norwich s /\
  (fst (on_bridge c w) = 0 \/ fst (on_bridge c w) = -1).
Proof.
  cbv zeta. rewrite on_bridge_ledyard. repeat split.
  unfold on_bridge, bind, pthread, get, printf, fprintf_stderr, emit, ret.
  destruct (failed (hd 0 (oracle w))); [right; reflexivity|].
  cbn. destruct (failed (hd 0 (tl (oracle w)))); [right|left]; reflexivity.
Qed.

(** ** The car thread *)

(** [one_vehicle] looks at no return code: once [arrive_bridge] has
    returned, with 0 or with -1, the thread reports and then calls
    [exit_bridge]. *)
Lemma one_vehicle_goes_on (c : car) (w : world) :
  match arrive_bridge c w with
  | (Returned _, w1) =>
      run_vehicle 3 (mk_vehicle c at_arrive) w =
      (mk_vehicle c finished, snd (exit_bridge c (snd (on_bridge c w1))))
  | (Blocked _, w1) =>
      one_vehicle_step (mk_vehicle c at_arrive) w =
      (mk_vehicle c in_cond_wait, w1)
  end.
Proof.
  unfold run_vehicle, one_vehicle_step, bind, ret. cbn [v_pc v_car].
  destruct (arrive_bridge c w) as [[rc|cv] w1];
    cbn [after_arrival v_pc v_car snd]; [|reflexivity].
  destruct (on_bridge c w1) as [r2 w2]. cbn [v_pc v_car snd].
  destruct (exit_bridge c w2) as [r3 w3]. reflexivity.
Qed.

(** C8 fails on the code: on a freshly initialised bridge whose first
    [pthread_mutex_lock] fails, [arrive_bridge] returns -1 without
    admitting the car, and the car thread still goes on to
    [exit_bridge], which prints its exit line and takes [num_cars]
    from 0 to -1; the next car to arrive then runs into the check of
    line 228 and is turned away with the report of an invalid bridge
    state. *)
Theorem failed_arrival_still_departs :
  let v := mk_vehicle hanover_car at_arrive in
  let after := snd (run_vehicle 3 v lock_fails) in
  one_vehicle TO_HANOVER = Some v /\
  fst (arrive_bridge hanover_car lock_fails) = Returned (-1) /\
  num_cars (ledyard (snd (arrive_bridge hanover_car lock_fails))) = 0 /\
  v_pc (fst (run_vehicle 3 v lock_fails)) = finished /\
  In (exit_report hanover_car) (trace after) /\
  num_cars (ledyard after) = -1 /\
  fst (arrive_bridge norwich_car after) = Returned (-1) /\
  existsb invariant_report
    (emitted after (snd (arrive_bridge norwich_car after))) = true.
Proof.
  vm_compute. repeat split. auto 20.
Qed.

(** * Further properties of the bridge *)

(** ** Every section only appends to the log *)


Lemma plain_events_count (evs : list event) :
  forallb plain_event evs = true ->
  existsb invariant_report evs = false /\ wait_failed evs = false /\
  locks_taken evs = 0%nat /\ unlock_calls evs = 0%nat.
Proof.
  unfold wait_failed, locks_taken, unlock_calls.
  induction evs as [|e evs IH]; [auto|].
  cbn [forallb existsb filter]. intros H.
  apply andb_true_iff in H as [He H]. destruct (IH H) as (I1 & I2 & I3 & I4).
  rewrite I1, I2.
  destruct e as [[| | | | |] rc| |]; cbn in He |- *;
    try discriminate; try rewrite negb_true_iff in He; rewrite ?He; auto.
Qed.

Lemma signal_loop_log (msg : string) (cv : cond) (n : nat) (w : world) :
  invariant_report (Stderr msg []) = false ->
  exists evs,
    trace (snd (signal_loop msg cv n w)) = trace w ++ evs /\
    forallb plain_event evs = true /\
    signal_failed evs = fst (signal_loop msg cv n w).
Proof.
  intros Hm. revert w. induction n as [|n IH]; intros w.
  - exists []. cbn. rewrite app_nil_r. auto.
  - cbn [signal_loop]. unfold bind, pthread.
    destruct (failed (hd 0 (oracle w))) eqn:Hf.
    + exists [Call (cond_signal cv) (hd 0 (oracle w)); Stderr msg []].
      cbn [fst snd trace fprintf_stderr emit ret]. rewrite <- app_assoc.
      split; [reflexivity|]. split.
      * cbn [forallb plain_event]. rewrite Hm. reflexivity.
      * cbn. rewrite Hf. reflexivity.
    + match goal with
      | |- context [signal_loop msg cv n ?w0] =>
          destruct (IH w0) as (evs & Ht & Hp & Hs)
      end.
      exists (Call (cond_signal cv) (hd 0 (oracle w)) :: evs).
      rewrite Ht. cbn [trace]. rewrite <- app_assoc.
      split; [reflexivity|]. split.
      * cbn [forallb plain_event]. exact Hp.
      * change (signal_failed
                  (Call (cond_signal cv) (hd 0 (oracle w)) :: evs))
          with (failed (hd 0 (oracle w)) || signal_failed evs).
        rewrite Hf. exact Hs.
Qed.

Lemma locks_taken_app (a b : list event) :
  locks_taken (a ++ b) = (locks_taken a + locks_taken b)%nat.
Proof. unfold locks_taken. rewrite filter_app, length_app. reflexivity. Qed.

Lemma unlock_calls_app (a b : list event) :
  unlock_calls (a ++ b) = (unlock_calls a + unlock_calls b)%nat.
Proof. unfold unlock_calls. rewrite filter_app, length_app. reflexivity. Qed.

Lemma wait_failed_app (a b : list event) :
  wait_failed (a ++ b) = wait_failed a || wait_failed b.
Proof. unfold wait_failed. apply existsb_app. Qed.

(** The log of one [exit_bridge]. *)
Lemma exit_bridge_log (c : car) (w : world) :
  exists evs,
    trace (snd (exit_bridge c w)) = trace w ++ evs /\
    existsb invariant_report evs = false /\
    wait_failed evs = false /\
    locks_taken evs = (if failed (hd 0 (oracle w)) then 0%nat else 1%nat) /\
    unlock_calls evs =
      (if failed (hd 0 (oracle w)) || signal_failed evs then 0%nat else 1%nat) /\
    (failed (hd 0 (oracle w)) || signal_failed evs = true ->
     fst (exit_bridge c w) = -1) /\
    (failed (hd 0 (oracle w)) = true -> signal_failed evs = false).
Proof.
  unfold exit_bridge, bind, pthread, get, fprintf_stderr, emit, ret.
  destruct (failed (hd 0 (oracle w))) eqn:Hlock.
  - exists [Call mutex_lock (hd 0 (oracle w));
            Stderr "Error acquiring lock for exit_bridge()\n" []].
    cbn [snd trace]. rewrite <- app_assoc.
    split; [reflexivity|]. unfold locks_taken. cbn.
    unfold failed in Hlock. apply negb_true_iff in Hlock. rewrite Hlock.
    repeat split; auto.
  - cbn [ledyard].
    destruct (leave_bridge c (ledyard w)) as [s' [n1 n2]].
    unfold modify. cbn [fst snd ledyard oracle trace].
    assert (Hz : (hd 0 (oracle w) =? 0) = true).
    { unfold failed in Hlock. apply negb_false_iff in Hlock. exact Hlock. }
    assert (Hl : forall evs, forallb plain_event evs = true ->
      existsb invariant_report
        (Call mutex_lock (hd 0 (oracle w)) :: evs) = false /\
      wait_failed (Call mutex_lock (hd 0 (oracle w)) :: evs) = false /\
      locks_taken (Call mutex_lock (hd 0 (oracle w)) :: evs) = 1%nat /\
      unlock_calls (Call mutex_lock (hd 0 (oracle w)) :: evs) = 0%nat /\
      signal_failed (Call mutex_lock (hd 0 (oracle w)) :: evs)
        = signal_failed evs).
    { intros evs Hp. destruct (plain_events_count evs Hp) as (P1 & P2 & P3 & P4).
      unfold locks_taken, unlock_calls, wait_failed in *. cbn.
      rewrite Hz. cbn. rewrite P1, P2, P3, P4. auto. }
    match goal with
    | |- context [signal_loop ?m ?cv ?n ?w0] =>
        destruct (signal_loop_log m cv n w0 eq_refl) as (evs1 & Ht1 & Hp1 & Hs1);
        destruct (signal_loop m cv n w0) as [e1 w1]
    end.
    cbn [fst snd trace] in *.
    destruct e1.
    { exists (Call mutex_lock (hd 0 (oracle w)) :: evs1).
      cbn [snd]. rewrite Ht1, <- app_assoc.
      split; [reflexivity|].
      destruct (Hl evs1 Hp1) as (L1 & L2 & L3 & L4 & L5).
      rewrite L5, Hs1. repeat split; auto; discriminate. }
    match goal with
    | |- context [signal_loop ?m ?cv ?n ?w0] =>
        destruct (signal_loop_log m cv n w0 eq_refl) as (evs2 & Ht2 & Hp2 & Hs2);
        destruct (signal_loop m cv n w0) as [e2 w2]
    end.
    cbn [fst snd trace] in *.
    assert (Hp12 : forallb plain_event (evs1 ++ evs2) = true)
      by (rewrite forallb_app, Hp1, Hp2; reflexivity).
    assert (Hs12 : signal_failed (evs1 ++ evs2) = e2)
      by (rewrite signal_failed_app, Hs1, Hs2; reflexivity).
    destruct e2.
    { exists (Call mutex_lock (hd 0 (oracle w)) :: evs1 ++ evs2).
      cbn [snd]. rewrite Ht2, Ht1, <- !app_assoc.
      split; [reflexivity|].
      destruct (Hl _ Hp12) as (L1 & L2 & L3 & L4 & L5).
      rewrite L5, Hs12. repeat split; auto; discriminate. }
    unfold printf, emit. cbn [fst snd ledyard oracle trace].
    set (tail :=
      [Printf "--- A car has exited for %s ---\n" [ArgStr (car_str_dir c)];
       Call mutex_unlock (hd 0 (oracle w2))] ++
      (if failed (hd 0 (oracle w2))
       then [Stderr "Error releasing lock for exit_bridge()\n" []]
       else [])).
    assert (Htail : existsb invariant_report tail = false /\
                    wait_failed tail = false /\ locks_taken tail = 0%nat /\
                    unlock_calls tail = 1%nat /\ signal_failed tail = false).
    { unfold tail. destruct (failed (hd 0 (oracle w2))); repeat split. }
    destruct Htail as (T1 & T2 & T3 & T4 & T5).
    exists ((Call mutex_lock (hd 0 (oracle w)) :: evs1 ++ evs2) ++ tail).
    destruct (Hl _ Hp12) as (L1 & L2 & L3 & L4 & L5).
    split.
    { unfold tail. destruct (failed (hd 0 (oracle w2))); cbn [snd trace];
        rewrite Ht2, Ht1, <- !app_assoc; cbn; rewrite <- ?app_assoc;
        reflexivity. }
    rewrite existsb_app, wait_failed_app, locks_taken_app, unlock_calls_app,
      signal_failed_app, L1, L2, L3, L4, L5, Hs12, T1, T2, T3, T4, T5.
    repeat split; auto; discriminate.
Qed.


Lemma boarded_exists (c : car) (s : bridge_state) :
  bridge_ok s -> must_wait c s = false -> exists s', boarded c s = Some s'.
Proof.
  intros (_ & Hz & _) Hm. unfold must_wait in Hm. unfold boarded.
  apply orb_false_iff in Hm as [-> ->].
  destruct (Z.eqb_spec (dir s) NO_DIRECTION) as [E|E]; [|eauto].
  apply Hz in E. rewrite E. cbn. eauto.
Qed.




Lemma bridge_ok_store (p : wait_ptr) (v : Z) (s : bridge_state) :
  bridge_ok s -> bridge_ok (store p v s).
Proof. destruct p; exact (fun H => H). Qed.



Lemma settle_world (c : car) (r : outcome * world) lob cro :
  sys_world (settle c r lob cro) = snd r.
Proof.
  unfold settle. destruct (fst r) as [rc|cv]; [destruct (rc =? 0)|];
    reflexivity.
Qed.




(** ** The three reports are never printed *)



(** ** The waiting counts *)








(** ** The printed direction *)

Lemma initialized_name (c : car) :
  initialized c -> car_str_dir c = dir_name (car_dir c).
Proof.
  intros H. destruct (initialized_inv c H) as [-> | ->]; reflexivity.
Qed.

Lemma boarded_name (c : car) (s s' : bridge_state) :
  initialized c -> str_dir s = dir_name (dir s) ->
  boarded c s = Some s' -> str_dir s' = dir_name (dir s').
Proof.
  intros Hc Hn. unfold boarded. intros H.
  destruct (dir s =? other_dir c); [discriminate|].
  destruct (num_cars s >=? MAX_CARS); [discriminate|].
  destruct (dir s =? NO_DIRECTION).
  - destruct (negb (num_cars s =? 0)); [discriminate|].
    injection H as <-. destruct (wait_dir c); cbn;
      apply initialized_name, Hc.
  - injection H as <-. destruct (wait_dir c); exact Hn.
Qed.

Lemma leave_bridge_name (c : car) (s : bridge_state) :
  str_dir s = dir_name (dir s) ->
  str_dir (fst (leave_bridge c s)) = dir_name (dir (fst (leave_bridge c s))).
Proof.
  intros Hn. unfold leave_bridge.
  destruct (num_cars (set_num_cars (decr (num_cars s)) s) =? 0);
    [reflexivity|exact Hn].
Qed.

Lemma waiting_lobby_name (c : car) (w : world) :
  initialized c -> str_dir (ledyard w) = dir_name (dir (ledyard w)) ->
  str_dir (ledyard (snd (waiting_lobby c w))) =
  dir_name (dir (ledyard (snd (waiting_lobby c w)))).
Proof.
  intros Hc Hn.
  destruct (waiting_lobby_cases c w)
    as [[_ E] | [(_ & Es & _) | (s' & Ha & Es & _)]].
  - rewrite E. exact Hn.
  - rewrite Es. exact Hn.
  - rewrite Es. exact (boarded_name c _ s' Hc Hn Ha).
Qed.

(** X3: in every reachable state the string [str_dir] that [on_bridge]
    prints is the name of the direction [dir]: "Hanover", "Norwich",
    or "Neither" for [NO_DIRECTION]. *)
Theorem direction_string_matches (s : system) :
  reachable s ->
  str_dir (ledyard (sys_world s)) = dir_name (dir (ledyard (sys_world s))).
Proof.
  induction 1 as [w0 w Hi|s s' Hr IH Hs].
  - cbn [sys_world]. revert Hi.
    unfold initialize_bridge, bind, pthread, fprintf_stderr, emit, modify, ret.
    destruct (failed (hd 0 (oracle w0))); [discriminate|]. cbn.
    destruct (failed (hd 0 (tl (oracle w0)))); [discriminate|]. cbn.
    destruct (failed (hd 0 (tl (tl (oracle w0))))); [discriminate|]. cbn.
    intros H. injection H as <-. reflexivity.
  - apply reachable_ok in Hr as [_ Hl].
    destruct Hs as [c w lob cro Hc | c w lob1 lob2 cro | c w lob cro Hin
                   | c w lob cro1 cro2]; cbn [sys_world lobby] in *;
      rewrite ?settle_world.
    + rewrite arrive_bridge_unfold.
      destruct (failed (hd 0 (oracle w))); [exact IH|].
      apply waiting_lobby_name; [exact Hc|].
      cbn [in_lobby ledyard]. destruct (wait_dir c); exact IH.
    + assert (Hc : initialized c).
      { apply Forall_app in Hl as [_ Hl]. inversion Hl; assumption. }
      rewrite arrive_bridge_wake_unfold.
      destruct (failed (hd 0 (oracle w))); [exact IH|].
      apply waiting_lobby_name; assumption.
    + rewrite on_bridge_ledyard. exact IH.
    + rewrite exit_bridge_ledyard.
      destruct (failed (hd 0 (oracle w))); [exact IH|].
      apply leave_bridge_name, IH.
Qed.

Lemma direction_string_matches_witness :
  str_dir (ledyard (sys_world sys3)) = "Hanover".
Proof. exact (direction_string_matches sys3 reachable_sys3). Defined.

(** ** A failing signal *)

(** X4: [exit_bridge] takes the lock at most once and unlocks at most
    once; when it returns 0 it has locked and unlocked; when a
    [pthread_cond_signal] fails it returns -1 having locked, removed
    the car from [num_cars], and never unlocked; when the lock itself
    fails it returns -1 and leaves the bridge as it was. *)
Theorem exit_bridge_lock_balance (c : car) (w : world) :
  let r := exit_bridge c w in
  let evs := emitted w (snd r) in
  (fst r = 0 -> locks_taken evs = 1%nat /\ unlock_calls evs = 1%nat) /\
  (signal_failed evs = true ->
     fst r = -1 /\ locks_taken evs = 1%nat /\ unlock_calls evs = 0%nat /\
     ledyard (snd r) = fst (leave_bridge c (ledyard w))) /\
  (failed (hd 0 (oracle w)) = true ->
     fst r = -1 /\ locks_taken evs = 0%nat /\ unlock_calls evs = 0%nat /\
     ledyard (snd r) = ledyard w).
Proof.
  cbv zeta.
  destruct (exit_bridge_log c w)
    as (evs & Ht & _ & _ & Hlk & Hun & Hrc & Hnosig).
  rewrite (emitted_app w _ evs Ht), exit_bridge_ledyard, Hlk, Hun.
  destruct (failed (hd 0 (oracle w))) eqn:Hl.
  - rewrite (Hnosig eq_refl) in *. cbn [orb] in *.
    rewrite (Hrc eq_refl). repeat split; discriminate.
  - cbn [orb] in *. destruct (signal_failed evs).
    + rewrite (Hrc eq_refl). repeat split; discriminate.
    + repeat split; discriminate.
Qed.

Lemma exit_bridge_lock_balance_witness :
  fst (exit_bridge hanover_car signal_fails) = -1 /\
  unlock_calls (emitted signal_fails (snd (exit_bridge hanover_car signal_fails)))
    = 0%nat /\
  num_cars (ledyard (snd (exit_bridge hanover_car signal_fails))) = 0.
Proof.
  destruct (exit_bridge_lock_balance hanover_car signal_fails) as (_ & H & _).
  destruct (H eq_refl) as (H1 & _ & H3 & H4).
  split; [exact H1|]. split; [exact H3|]. rewrite H4. reflexivity.
Defined.

(** ** A car that crosses alone *)

Lemma calm_hd (w : world) : calm w -> failed (hd 0 (oracle w)) = false.
Proof.
  unfold calm. destruct (oracle w) as [|rc l]; [reflexivity|].
  intros H. inversion H; subst. reflexivity.
Qed.

Lemma Forall_tl {A} (P : A -> Prop) (l : list A) :
  Forall P l -> Forall P (tl l).
Proof. destruct l; [auto|]. intros H. inversion H; assumption. Qed.

Lemma getting_on_calm (c : car) (w : world) :
  calm w -> calm (snd (getting_on c w)).
Proof.
  unfold calm, getting_on, board, bind, get, modify, fprintf_stderr,
    printf, emit, pthread, ret.
  intros H.
  destruct (dir (ledyard w) =? other_dir c); [exact H|].
  destruct (num_cars (ledyard w) >=? MAX_CARS); [exact H|].
  destruct (dir (ledyard w) =? NO_DIRECTION).
  - destruct (negb (num_cars (ledyard w) =? 0)); [exact H|].
    cbn. destruct (failed (hd 0 (oracle w))); apply Forall_tl, H.
  - cbn. destruct (failed (hd 0 (oracle w))); apply Forall_tl, H.
Qed.

Lemma arrive_bridge_calm (c : car) (w : world) :
  calm w -> calm (snd (arrive_bridge c w)).
Proof.
  intros H. rewrite arrive_bridge_unfold.
  destruct (failed (hd 0 (oracle w))); [apply Forall_tl, H|].
  rewrite waiting_lobby_unfold.
  assert (Hin : calm (in_lobby c w)) by (apply Forall_tl, H).
  destruct (must_wait c (ledyard (in_lobby c w))); [exact Hin|].
  apply getting_on_calm, Hin.
Qed.

Lemma on_bridge_calm (c : car) (w : world) :
  calm w -> calm (snd (on_bridge c w)).
Proof.
  unfold calm, on_bridge, bind, pthread, get, printf, fprintf_stderr, emit,
    ret.
  intros H. destruct (failed (hd 0 (oracle w))); [apply Forall_tl, H|].
  cbn. destruct (failed (hd 0 (tl (oracle w)))); apply Forall_tl, Forall_tl, H.
Qed.

Lemma decr_incr (z : Z) : int_range z -> decr (incr z) = z.
Proof.
  intros H. unfold decr, incr, int_wrap.
  replace ((z + 1 + 2 ^ 31) mod 2 ^ 32 - 2 ^ 31 - 1 + 2 ^ 31)
    with ((z + 1 + 2 ^ 31) mod 2 ^ 32 - 1) by lia.
  rewrite Zminus_mod_idemp_l.
  replace (z + 1 + 2 ^ 31 - 1) with (z + 2 ^ 31) by lia.
  unfold int_range, INT_MIN, INT_MAX in H.
  rewrite Z.mod_small; lia.
Qed.

(** X5: when every pthread call succeeds, a car that finds the bridge
    open to it (direction not opposite, room left) and crosses with no
    other car running in between -- [arrive_bridge], [on_bridge],
    [exit_bridge] -- is admitted at once and leaves the bridge state
    exactly as it found it: direction (back to "Neither" if the bridge
    was empty), number of cars and both waiting counts. *)
Theorem solo_crossing_round_trip (c : car) (w : world) :
  let r := run_vehicle 3 (mk_vehicle c at_arrive) w in
  calm w ->
  bridge_ok (ledyard w) ->
  str_dir (ledyard w) = dir_name (dir (ledyard w)) ->
  must_wait c (ledyard w) = false ->
  int_range (load (wait_dir c) (ledyard w)) ->
  fst (arrive_bridge c w) = Returned 0 /\
  v_pc (fst r) = finished /\
  ledyard (snd r) = ledyard w.
Proof.
  cbv zeta. intros Hcalm Hb Hname Hm Hw.
  pose proof (one_vehicle_goes_on c w) as Hgo.
  pose proof (arrive_bridge_calm c w Hcalm) as Hcalm1.
  assert (Harr : fst (arrive_bridge c w) = Returned 0 /\
                 boarded c (ledyard (in_lobby c w))
                 = Some (ledyard (snd (arrive_bridge c w)))).
  { rewrite arrive_bridge_unfold, (calm_hd w Hcalm), waiting_lobby_unfold.
    assert (Hm' : must_wait c (ledyard (in_lobby c w)) = false).
    { unfold must_wait in *. cbn [in_lobby ledyard].
      destruct (wait_dir c); exact Hm. }
    rewrite Hm'.
    destruct (boarded_exists c _ (bridge_ok_store _ _ _ Hb) Hm') as [s1 Hs1].
    pose proof (getting_on_ledyard c (in_lobby c w)) as Hg.
    change (boarded c (ledyard (in_lobby c w)))
      with (boarded c (store (wait_dir c)
              (incr (load (wait_dir c) (ledyard w))) (ledyard w))) in Hs1 |- *.
    cbn [in_lobby ledyard] in Hg. rewrite Hs1 in Hg. destruct Hg as [Hl Hf].
    rewrite Hf, Hl.
    assert (Hc2 : failed (hd 0 (oracle (in_lobby c w))) = false)
      by (apply calm_hd, Forall_tl, Hcalm).
    rewrite Hc2. auto. }
  destruct Harr as [Hret Hboard].
  destruct (arrive_bridge c w) as [o w1]. cbn [fst snd] in *. subst o.
  rewrite Hgo. cbn [fst snd v_pc].
  split; [reflexivity|]. split; [reflexivity|].
  rewrite exit_bridge_ledyard, (calm_hd _ (on_bridge_calm c w1 Hcalm1)),
    on_bridge_ledyard.
  (* the state on board, then off again *)
  revert Hboard. cbn [in_lobby ledyard].
  destruct Hb as ((Hn0 & Hn3) & Hz & Hdir).
  unfold must_wait in Hm. apply orb_false_iff in Hm as [Hopp Hfull].
  unfold boarded. rewrite !(proj1 (store_frame _ _ _)),
    !(proj1 (proj2 (store_frame _ _ _))), Hopp, Hfull.
  assert (Hi : incr (num_cars (ledyard w)) = num_cars (ledyard w) + 1).
  { apply incr_small.
    destruct (Z.geb_spec (num_cars (ledyard w)) MAX_CARS); [discriminate|].
    unfold INT_MIN, INT_MAX, MAX_CARS in *. lia. }
  assert (Hdec : decr (num_cars (ledyard w) + 1) = num_cars (ledyard w)).
  { rewrite decr_small by (unfold INT_MIN, INT_MAX, MAX_CARS in *; lia). lia. }
  pose proof (decr_incr _ Hw) as Hdi.
  destruct (ledyard w) as [sd d n wh wn]. cbn [str_dir dir num_cars] in *.
  destruct (Z.eqb_spec d NO_DIRECTION) as [E|E].
  - assert (n = 0) by (apply Hz, E). subst n d. cbn [negb Z.eqb].
    intros H. injection H as <-.
    subst sd. unfold leave_bridge.
    destruct (wait_dir c); cbn -[incr decr] in Hdi |- *;
      rewrite Hi, Hdec; cbn -[incr decr]; rewrite ?Hdi; reflexivity.
  - intros H. injection H as <-.
    assert (Hnz : n <> 0) by (intros H0; apply E, Hz, H0).
    unfold leave_bridge.
    destruct (wait_dir c); cbn -[incr decr] in Hdi |- *; rewrite Hi, Hdec;
      (destruct (Z.eqb_spec n 0); [contradiction|]); cbn -[incr decr];
      rewrite ?Hdi; reflexivity.
Qed.

Lemma solo_crossing_round_trip_witness :
  ledyard (snd (run_vehicle 3 (mk_vehicle norwich_car at_arrive) empty_bridge))
  = ledyard empty_bridge.
Proof.
  assert (H1 : calm empty_bridge) by constructor.
  assert (H2 : bridge_ok (ledyard empty_bridge)).
  { unfold bridge_ok, MAX_CARS. cbn. repeat split; auto; lia. }
  assert (H3 : str_dir (ledyard empty_bridge)
               = dir_name (dir (ledyard empty_bridge))) by reflexivity.
  assert (H4 : must_wait norwich_car (ledyard empty_bridge) = false)
    by reflexivity.
  assert (H5 : int_range (load (wait_dir norwich_car) (ledyard empty_bridge))).
  { unfold int_range, INT_MIN, INT_MAX. cbn. lia. }
  exact (proj2 (proj2
    (solo_crossing_round_trip norwich_car empty_bridge H1 H2 H3 H4 H5))).
Defined.

(** ** Initialisation *)

(** X6: [initialize_bridge] stops at the first initialisation that
    fails: it then returns -1, reports the error as its last output,
    makes no further pthread call and leaves the bridge fields as they
    were.  It returns 0 exactly when the three initialisations return
    0, and the bridge is then empty with no direction and nobody
    waiting, whatever it held before. *)
Theorem initialize_bridge_outcome (w0 : world) :
  let r := initialize_bridge w0 in
  let rc1 := hd 0 (oracle w0) in
  let rc2 := hd 0 (tl (oracle w0)) in
  let rc3 := hd 0 (tl (tl (oracle w0))) in
  (fst r = 0 <-> rc1 = 0 /\ rc2 = 0 /\ rc3 = 0) /\
  (fst r = 0 ->
     ledyard (snd r) = mk_bridge "Neither" NO_DIRECTION 0 0 0 /\
     oracle (snd r) = tl (tl (tl (oracle w0)))) /\
  (fst r <> 0 ->
     fst r = -1 /\ ledyard (snd r) = ledyard w0 /\
     last (trace (snd r)) (Call mutex_init 0) =
       Stderr "Error initializing ledyard mutex or condition variables\n" []) /\
  (rc1 <> 0 -> oracle (snd r) = tl (oracle w0)) /\
  (rc1 = 0 -> rc2 <> 0 -> oracle (snd r) = tl (tl (oracle w0))).
Proof.
  cbv zeta.
  unfold initialize_bridge, bind, pthread, fprintf_stderr, emit, modify, ret,
    failed.
  destruct (Z.eqb_spec (hd 0 (oracle w0)) 0) as [E1|E1]; cbn.
  2: { rewrite last_last. repeat split; try tauto; try discriminate;
       intros H; (discriminate H || tauto). }
  destruct (Z.eqb_spec (hd 0 (tl (oracle w0))) 0) as [E2|E2]; cbn.
  2: { rewrite last_last. repeat split; try tauto; try discriminate;
       intros H; (discriminate H || tauto). }
  destruct (Z.eqb_spec (hd 0 (tl (tl (oracle w0)))) 0) as [E3|E3]; cbn.
  2: { rewrite last_last. repeat split; try tauto; try discriminate;
       intros H; (discriminate H || tauto). }
  repeat split; try tauto.
Qed.


(** * The glue around the bridge *)

(** ** Random sleeps *)

Lemma sleep_time_range (lo hi r : Z) :
  0 <= r -> int_range lo -> int_range hi -> lo <= hi -> hi - lo < INT_MAX ->
  lo <= int_wrap (Z.rem r (int_wrap (int_wrap (hi - lo) + 1)) + lo) <= hi.
Proof.
  intros Hr Hlo Hhi Hle Hsmall.
  unfold int_range, INT_MIN, INT_MAX in *.
  assert (E : int_wrap (int_wrap (hi - lo) + 1) = hi - lo + 1).
  { rewrite (int_wrap_id (hi - lo))
      by (unfold int_range, INT_MIN, INT_MAX; lia).
    apply int_wrap_id. unfold int_range, INT_MIN, INT_MAX. lia. }
  rewrite E.
  pose proof (Z.rem_bound_pos r (hi - lo + 1) Hr ltac:(lia)) as Hb.
  rewrite int_wrap_id by (unfold int_range, INT_MIN, INT_MAX; lia).
  lia.
Qed.

Lemma small_int (z : Z) : -5 <= z <= 5 -> int_range z.
Proof. unfold int_range, INT_MIN, INT_MAX. lia. Qed.

(** X8: with [min <= max] (and [max - min + 1] an [int]),
    [consider_interleaving] sleeps exactly when its first [rand()] is
    odd, and then for a time within [min] and [max], both included; it
    uses one [rand()] when it does not sleep and two when it does. *)
Theorem consider_interleaving_range (min max : Z) (rands : list Z) :
  0 <= hd 0 rands -> 0 <= hd 0 (tl rands) ->
  int_range min -> int_range max -> min <= max -> max - min < INT_MAX ->
  match fst (consider_interleaving min max rands) with
  | Some t =>
      min <= t <= max /\ Z.odd (hd 0 rands) = true /\
      snd (consider_interleaving min max rands) = tl (tl rands)
  | None =>
      Z.even (hd 0 rands) = true /\
      snd (consider_interleaving min max rands) = tl rands
  end.
Proof.
  intros H1 H2 Hmin Hmax Hle Hsmall. unfold consider_interleaving.
  rewrite Z.rem_mod_nonneg by lia. rewrite Zmod_even.
  rewrite <- Z.negb_even.
  destruct (Z.even (hd 0 rands)); cbn [Z.eqb fst snd negb]; [auto|].
  split; [|auto]. apply sleep_time_range; assumption.
Qed.

Lemma consider_interleaving_range_witness :
  match fst (consider_interleaving 1 5 [3; 9]) with
  | Some t =>
      1 <= t <= 5 /\ Z.odd (hd 0 [3; 9]) = true /\
      snd (consider_interleaving 1 5 [3; 9]) = tl (tl [3; 9])
  | None =>
      Z.even (hd 0 [3; 9]) = true /\
      snd (consider_interleaving 1 5 [3; 9]) = tl [3; 9]
  end.
Proof.
  apply (consider_interleaving_range 1 5 [3; 9]);
    try (apply small_int); cbn; unfold INT_MAX; lia.
Defined.

Lemma nonneg_hd (l : list Z) : Forall (fun r => 0 <= r) l -> 0 <= hd 0 l.
Proof. destruct l; cbn; [lia|]. intros H. inversion H; assumption. Qed.

(** One [consider_interleaving] on non-negative [rand()] values: the
    time slept and the values left. *)
Lemma consider_interleaving_step (lo hi : Z) (rands : list Z) :
  Forall (fun r => 0 <= r) rands ->
  -5 <= lo <= hi -> hi <= 5 ->
  Forall (fun r => 0 <= r) (snd (consider_interleaving lo hi rands)) /\
  match fst (consider_interleaving lo hi rands) with
  | Some t => lo <= t <= hi
  | None => True
  end.
Proof.
  intros Hr Hlo Hhi. unfold consider_interleaving.
  destruct (Z.rem (hd 0 rands) 2 =? 0); cbn [fst snd].
  - split; [apply Forall_tl, Hr|exact I].
  - split; [apply Forall_tl, Forall_tl, Hr|].
    apply sleep_time_range;
      [apply nonneg_hd, Forall_tl, Hr | apply small_int; lia
      | apply small_int; lia | lia | unfold INT_MAX; lia].
Qed.

(** X9: whatever non-negative values [rand()] returns, the three
    sleeps of one car thread add up to between 0 and 11 seconds: at
    most 1 before arriving and at most 5 before reporting and before
    leaving. *)
Theorem one_vehicle_sleep_total (rands : list Z) :
  Forall (fun r => 0 <= r) rands ->
  0 <= seconds (fst (one_vehicle_sleeps rands)) <= 11 /\
  List.length (fst (one_vehicle_sleeps rands)) = 3%nat.
Proof.
  intros Hr. unfold one_vehicle_sleeps.
  destruct (consider_interleaving_step 1 1 rands Hr ltac:(lia) ltac:(lia))
    as [Hr1 H1].
  destruct (consider_interleaving 1 1 rands) as [s1 r1]. cbn [fst snd] in *.
  destruct (consider_interleaving_step 1 5 r1 Hr1 ltac:(lia) ltac:(lia))
    as [Hr2 H2].
  destruct (consider_interleaving 1 5 r1) as [s2 r2]. cbn [fst snd] in *.
  destruct (consider_interleaving_step 1 5 r2 Hr2 ltac:(lia) ltac:(lia))
    as [_ H3].
  destruct (consider_interleaving 1 5 r2) as [s3 r3]. cbn [fst snd] in *.
  split; [|reflexivity].
  destruct s1, s2, s3; cbn [seconds fold_right]; lia.
Qed.

Lemma one_vehicle_sleep_total_witness :
  0 <= seconds (fst (one_vehicle_sleeps [1; 7; 1; 4; 1; 9])) <= 11 /\
  List.length (fst (one_vehicle_sleeps [1; 7; 1; 4; 1; 9])) = 3%nat.
Proof.
  apply (one_vehicle_sleep_total [1; 7; 1; 4; 1; 9]).
  repeat constructor; lia.
Defined.

(** ** Console input *)

Lemma c_string_text (l : list ascii) :
  forallb (fun b => negb (Ascii.eqb b "000"%char)) l = true -> c_string l = l.
Proof.
  induction l as [|b l IH]; [reflexivity|]. cbn. intros H.
  apply andb_true_iff in H as [Hb Hl]. apply negb_true_iff in Hb.
  rewrite Hb, IH by exact Hl. reflexivity.
Qed.

Lemma text_not_nul (l : list ascii) :
  forallb text_byte l = true ->
  forallb (fun b => negb (Ascii.eqb b "000"%char)) l = true.
Proof.
  induction l as [|b l IH]; [reflexivity|]. cbn. unfold text_byte at 1.
  intros H. apply andb_true_iff in H as [Hb Hl].
  apply andb_true_iff in Hb as [_ Hb]. rewrite Hb, IH by exact Hl.
  reflexivity.
Qed.

Lemma text_firstn (n : nat) (l : list ascii) :
  forallb text_byte l = true -> forallb text_byte (firstn n l) = true.
Proof.
  revert l. induction n as [|n IH]; intros [|b l]; cbn; auto.
  intros H. apply andb_true_iff in H as [Hb Hl]. rewrite Hb, IH; auto.
Qed.

(** [fgets_read] on a line: the whole line with its newline when it
    fits, its first [n] bytes otherwise. *)
Lemma fgets_read_line (n : nat) (line rest : list ascii) :
  forallb text_byte line = true ->
  fgets_read n (line ++ newline :: rest) =
  if (List.length line <? n)%nat then (line ++ [newline], rest)
  else (firstn n line, skipn n line ++ newline :: rest).
Proof.
  revert line. induction n as [|n IH]; intros line Hl.
  - destruct line; reflexivity.
  - destruct line as [|b line].
    + reflexivity.
    + cbn in Hl. apply andb_true_iff in Hl as [Hb Hl].
      unfold text_byte in Hb. apply andb_true_iff in Hb as [Hb _].
      apply negb_true_iff in Hb.
      cbn [app fgets_read List.length]. rewrite Hb, (IH line Hl).
      change (S (List.length line) <? S n)%nat
        with (List.length line <? n)%nat.
      destruct (List.length line <? n)%nat; reflexivity.
Qed.

Lemma flush_line_line (line rest : list ascii) (rc : Z) :
  forallb text_byte line = true ->
  flush_line (line ++ newline :: rest) rc =
  (if forallb isspace line then rc else -1, rest).
Proof.
  revert rc. induction line as [|b line IH]; intros rc Hl.
  - reflexivity.
  - cbn in Hl. apply andb_true_iff in Hl as [Hb Hl].
    unfold text_byte in Hb. apply andb_true_iff in Hb as [Hb _].
    apply negb_true_iff in Hb.
    cbn [app flush_line forallb]. rewrite Hb, (IH _ Hl).
    destruct (isspace b); cbn [andb]; [reflexivity|].
    destruct (forallb isspace line); reflexivity.
Qed.

Lemma ends_in_newline_text (l : list ascii) :
  forallb text_byte l = true -> l <> [] -> ends_in_newline l = Some false.
Proof.
  intros Hl Hne. unfold ends_in_newline.
  destruct (rev l) as [|b r] eqn:E.
  - apply (f_equal (@rev ascii)) in E. rewrite rev_involutive in E.
    contradiction.
  - assert (Hin : In b l) by (apply in_rev; rewrite E; left; reflexivity).
    rewrite forallb_forall in Hl. specialize (Hl b Hin).
    unfold text_byte in Hl. apply andb_true_iff in Hl as [Hb _].
    apply negb_true_iff in Hb. rewrite Hb. reflexivity.
Qed.

Lemma ends_in_newline_snoc (l : list ascii) :
  ends_in_newline (l ++ [newline]) = Some true.
Proof. unfold ends_in_newline. rewrite rev_unit. reflexivity. Qed.

Lemma fgets_line (old : list ascii) (len : Z) (line rest : list ascii) :
  2 <= len ->
  forallb text_byte line = true ->
  fgets old len (line ++ newline :: rest) =
  if (List.length line <? Z.to_nat (len - 1))%nat
  then (line ++ [newline], rest)
  else (firstn (Z.to_nat (len - 1)) line,
        skipn (Z.to_nat (len - 1)) line ++ newline :: rest).
Proof.
  intros Hlen Hl. unfold fgets.
  destruct (Z.leb_spec len 0) as [|_]; [lia|].
  destruct (Z.eqb_spec len 1) as [|_]; [lia|].
  rewrite (fgets_read_line _ line rest Hl).
  assert (Hmatch : forall (bytes r : list ascii), bytes <> [] ->
    match bytes with [] => (old, r) | _ :: _ => (c_string bytes, r) end
    = (c_string bytes, r)).
  { intros [|b l] r H; [contradiction|reflexivity]. }
  destruct (Nat.ltb_spec (List.length line) (Z.to_nat (len - 1)))
    as [Hfit|Hlong].
  - rewrite Hmatch by (destruct line; discriminate).
    rewrite c_string_text; [reflexivity|].
    rewrite forallb_app, (text_not_nul _ Hl). reflexivity.
  - rewrite Hmatch.
    + rewrite (c_string_text _ (text_not_nul _ (text_firstn _ line Hl))).
      reflexivity.
    + destruct line; [cbn in Hlong; lia|].
      destruct (Z.to_nat (len - 1)) eqn:E; [lia|]. discriminate.
Qed.

(** [input_string] on a line of text. *)
Lemma input_string_reads_line (tty : bool) (message : option string)
    (old : list ascii) (len : Z) (line rest : list ascii) :
  2 <= len <= INT_MAX ->
  forallb text_byte line = true ->
  let n := Z.to_nat (len - 1) in
  input_string tty message (Some old) len (line ++ newline :: rest) =
  Some (mk_input
          (if forallb isspace (skipn n line) then 0 else -1)
          (Some (firstn n line))
          rest
          (match message with
           | Some m => if tty then [Printf "%s" [ArgStr m]] else []
           | None => []
           end)).
Proof.
  intros Hlen Hl. cbv zeta. unfold input_string.
  rewrite (fgets_line old len line rest (proj1 Hlen) Hl).
  set (n := Z.to_nat (len - 1)).
  assert (Hn : Z.of_nat n = len - 1) by (unfold n; lia).
  unfold INT_MAX in Hlen.
  destruct (Nat.ltb_spec (List.length line) n) as [Hfit|Hlong].
  - (* the line fits, newline included *)
    rewrite ends_in_newline_snoc, removelast_last.
    rewrite firstn_all2, skipn_all2 by lia.
    rewrite length_app. cbn [List.length forallb].
    rewrite int_wrap_id
      by (unfold int_range, INT_MIN, INT_MAX; lia).
    destruct (Z.eqb_spec (Z.of_nat (List.length line + 1)) 0) as [|_];
      [lia|].
    cbn [negb].
    destruct (incr (Z.of_nat (List.length line + 1)) >=? len); reflexivity.
  - (* only the first [len - 1] bytes fit *)
    assert (Hne : firstn n line <> []).
    { destruct line; [cbn in Hlong; lia|].
      destruct n; [lia|]. discriminate. }
    assert (Hlenf : List.length (firstn n line) = n)
      by (rewrite length_firstn; lia).
    rewrite (ends_in_newline_text _ (text_firstn n line Hl) Hne), Hlenf.
    rewrite int_wrap_id by (unfold int_range, INT_MIN, INT_MAX; lia).
    rewrite incr_small by (unfold INT_MIN, INT_MAX; lia).
    destruct (Z.geb_spec (Z.of_nat n + 1) len) as [_|]; [|lia].
    assert (Hskip : forallb text_byte (skipn n line) = true).
    { rewrite <- (firstn_skipn n line), forallb_app in Hl.
      apply andb_true_iff in Hl as [_ Hl]. exact Hl. }
    rewrite (flush_line_line _ rest 0 Hskip).
    destruct (Z.eqb_spec (Z.of_nat n) 0) as [|_]; [lia|].
    reflexivity.
Qed.

(** X10: reading a line of text with room for [len - 1] bytes
    ([len >= 2]): [input_string] stores the first [len - 1] bytes of
    the line without its newline, so never more than the buffer holds;
    it consumes the whole line and its newline whatever its length;
    and it returns 0, or -1 exactly when a byte that did not fit is
    not a space. *)
Theorem input_string_line (tty : bool) (message : option string)
    (old : list ascii) (len : Z) (line rest : list ascii) :
  2 <= len <= INT_MAX ->
  forallb text_byte line = true ->
  exists r buf,
    input_string tty message (Some old) len (line ++ newline :: rest)
    = Some r /\
    in_stdin r = rest /\
    in_buffer r = Some buf /\
    buf = firstn (Z.to_nat (len - 1)) line /\
    Z.of_nat (List.length buf) < len /\
    (List.length line < Z.to_nat len -> buf = line)%nat /\
    (in_rc r = 0 \/ in_rc r = -1) /\
    (in_rc r = 0 <->
     forallb isspace (skipn (Z.to_nat (len - 1)) line) = true).
Proof.
  intros Hlen Hl.
  rewrite (input_string_reads_line tty message old len line rest Hlen Hl).
  cbv zeta. eexists. eexists. split; [reflexivity|].
  cbn [in_stdin in_buffer in_rc].
  split; [reflexivity|]. split; [reflexivity|]. split; [reflexivity|].
  split; [rewrite length_firstn; lia|].
  split; [intros Hfit; apply firstn_all2; lia|].
  destruct (forallb isspace (skipn (Z.to_nat (len - 1)) line)).
  - split; [left; reflexivity|]. split; reflexivity.
  - split; [right; reflexivity|]. split; discriminate.
Qed.

Lemma input_string_line_witness :
  exists r buf,
    input_string true (Some "q? ") (Some (list_ascii_of_string "zz")) 4
      (list_ascii_of_string "12345  x" ++ newline ::
       list_ascii_of_string "rest")
    = Some r /\
    in_stdin r = list_ascii_of_string "rest" /\
    in_buffer r = Some buf /\
    buf = firstn (Z.to_nat (4 - 1)) (list_ascii_of_string "12345  x") /\
    Z.of_nat (List.length buf) < 4 /\
    (List.length (list_ascii_of_string "12345  x") < Z.to_nat 4
     -> buf = list_ascii_of_string "12345  x")%nat /\
    (in_rc r = 0 \/ in_rc r = -1) /\
    (in_rc r = 0 <->
     forallb isspace
       (skipn (Z.to_nat (4 - 1)) (list_ascii_of_string "12345  x")) = true).
Proof.
  assert (H1 : 2 <= 4 <= INT_MAX) by (unfold INT_MAX; lia).
  assert (H2 : forallb text_byte (list_ascii_of_string "12345  x") = true)
    by reflexivity.
  exact (input_string_line true (Some "q? ") (list_ascii_of_string "zz") 4
           (list_ascii_of_string "12345  x") (list_ascii_of_string "rest")
           H1 H2).
Defined.




(** ** [intro] *)

Lemma ask_count_range (fuel : nat) (tty : bool) (val : Z) (k : console)
    (v : Z) (k' : console) :
  ask_count fuel tty val k = Some (v, k') ->
  (0 <= val -> v = val) /\ (val < 0 -> 1 <= v <= 100).
Proof.
  revert val k. induction fuel as [|fuel IH]; intros val k;
    cbn [ask_count]; destruct (Z.ltb_spec val 0) as [Hneg|Hpos];
    try discriminate;
    try (intros H; injection H as <- _; split; [reflexivity|lia]).
  destruct (input_string tty _ _ 4 _) as [[rc [b'|] stdin' out']|];
    try discriminate.
  destruct (strtol b') as [x extra].
  match goal with
  | |- ask_count fuel tty ?v2 _ = _ -> _ => set (val2 := v2)
  end.
  intros H. apply IH in H as [Hsame Hask].
  split; [lia|]. intros _.
  assert (Hv2 : val2 = -2 \/ 1 <= val2 <= 100).
  { unfold val2.
    destruct (Z.of_nat (List.length b') <? 1); [auto|].
    destruct extra; cbn [negb orb]; [|auto].
    destruct (Z.gtb_spec (int_wrap x) 100); [auto|].
    destruct (Z.ltb_spec (int_wrap x) 1); cbn [orb]; [auto|].
    destruct (rc =? -1); [auto|]. right. lia. }
  destruct Hv2 as [E|Hr]; [apply Hask; lia|]. rewrite Hsame; lia.
Qed.

Lemma ask_direction_range (fuel : nat) (tty : bool) (i val : Z) (k : console)
    (v : Z) (k' : console) :
  ask_direction fuel tty i val k = Some (v, k') ->
  (0 <= val -> v = val) /\ (val < 0 -> v = 0 \/ v = 1).
Proof.
  revert val k. induction fuel as [|fuel IH]; intros val k;
    cbn [ask_direction]; destruct (Z.ltb_spec val 0) as [Hneg|Hpos];
    try discriminate;
    try (intros H; injection H as <- _; split; [reflexivity|lia]).
  destruct (input_string tty _ _ 2 _) as [[rc [b'|] stdin' out']|];
    try discriminate.
  destruct (strtol b') as [x extra].
  match goal with
  | |- ask_direction fuel tty i ?v2 _ = _ -> _ => set (val2 := v2)
  end.
  intros H. apply IH in H as [Hsame Hask].
  split; [lia|]. intros _.
  assert (Hv2 : val2 = -2 \/ val2 = 0 \/ val2 = 1).
  { unfold val2.
    destruct (negb (Z.of_nat (List.length b') =? 1)); [auto|].
    destruct extra; cbn [negb orb]; [|auto].
    destruct (Z.eqb_spec (int_wrap x) 0) as [->|]; cbn [negb andb orb].
    - destruct (rc =? -1); auto.
    - destruct (Z.eqb_spec (int_wrap x) 1) as [->|]; cbn [negb orb]; [|auto].
      destruct (rc =? -1); auto. }
  destruct Hv2 as [E|[E|E]]; [apply Hask; lia| |]; rewrite Hsame; lia.
Qed.

Lemma ask_directions_range (fuel : nat) (tty : bool) (n : nat) (i : Z)
    (k : console) (ds : list Z) (k' : console) :
  ask_directions fuel tty n i k = Some (ds, k') ->
  List.length ds = n /\ Forall (fun d => d = 0 \/ d = 1) ds.
Proof.
  revert i k ds k'. induction n as [|n IH]; intros i k ds k';
    cbn [ask_directions].
  - intros H. injection H as <- _. split; [reflexivity|constructor].
  - destruct (ask_direction fuel tty i (-1) k) as [[d k1]|] eqn:Ed;
      [|discriminate].
    destruct (ask_directions fuel tty n (incr i) k1) as [[ds' k2]|] eqn:Er;
      [|discriminate].
    intros H. injection H as <- _.
    apply IH in Er as [Hl Hf].
    apply ask_direction_range in Ed as [_ Hd].
    split; [cbn; lia|]. constructor; [apply Hd; lia|exact Hf].
Qed.

Lemma intro_answer_range (fuel : nat) (tty : bool) (buffer0 : list ascii)
    (rc0 : Z) (stdin : list ascii) (total : Z) (dirs : list Z) (k : console) :
  intro fuel tty buffer0 rc0 stdin = Some (chosen_cars total dirs, k) ->
  1 <= total <= 100 /\ Z.of_nat (List.length dirs) = total /\
  Forall (fun d => d = 0 \/ d = 1) dirs.
Proof.
  unfold intro.
  destruct (ask_control fuel tty 0 rc0 _) as [k0|]; [|discriminate].
  destruct (negb (holds (con_buffer k0) "y")); [discriminate|].
  destruct (ask_count fuel tty (-1) k0) as [[val k1]|] eqn:Ec;
    [|discriminate].
  destruct (ask_directions fuel tty (Z.to_nat val) 0 k1) as [[ds k2]|] eqn:Ed;
    [|discriminate].
  intros H. injection H as <- <- _.
  apply ask_count_range in Ec as [_ Hc].
  apply ask_directions_range in Ed as [Hl Hf].
  split; [apply Hc; lia|]. split; [|exact Hf].
  rewrite Hl. specialize (Hc ltac:(lia)). lia.
Qed.

(** X12: whatever is typed, when [intro] returns an array of directions
    the count it stored in [*total_cars] is between 1 and 100, the
    array has exactly that many entries, and every entry is 0 or 1. *)
Theorem intro_answer_valid (fuel : nat) (tty : bool) (buffer0 : list ascii)
    (rc0 : Z) (stdin : list ascii) (total : Z) (dirs : list Z) (k : console) :
  intro fuel tty buffer0 rc0 stdin = Some (chosen_cars total dirs, k) ->
  1 <= total <= 100 /\ Z.of_nat (List.length dirs) = total /\
  Forall (fun d => d = TO_HANOVER \/ d = TO_NORWICH) dirs.
Proof.
  intros H. apply intro_answer_range in H as (H1 & H2 & H3).
  split; [exact H1|]. split; [exact H2|exact H3].
Qed.

Lemma intro_answer_valid_witness :
  1 <= 3 <= 100 /\ Z.of_nat (List.length [0; 1; 1]) = 3 /\
  Forall (fun d => d = TO_HANOVER \/ d = TO_NORWICH) [0; 1; 1].
Proof.
  eapply (intro_answer_valid 5 false [] 0
            (script [0; 1; 1] ++ list_ascii_of_string "tail")).
  vm_compute. reflexivity.
Defined.

Lemma ask_control_done (fuel : nat) (tty : bool) (tries rc : Z)
    (k : console) :
  control_pending (con_buffer k) rc = false ->
  ask_control fuel tty tries rc k = Some k.
Proof. intros H. destruct fuel; cbn [ask_control]; rewrite H; reflexivity. Qed.

Lemma ask_count_done (fuel : nat) (tty : bool) (val : Z) (k : console) :
  0 <= val -> ask_count fuel tty val k = Some (val, k).
Proof.
  intros H. destruct fuel; cbn [ask_count];
    destruct (Z.ltb_spec val 0); (lia || reflexivity).
Qed.

Lemma ask_direction_done (fuel : nat) (tty : bool) (i val : Z)
    (k : console) :
  0 <= val -> ask_direction fuel tty i val k = Some (val, k).
Proof.
  intros H. destruct fuel; cbn [ask_direction];
    destruct (Z.ltb_spec val 0); (lia || reflexivity).
Qed.

Lemma count_lines_ok (n : Z) : 1 <= n <= 100 -> count_line_ok n = true.
Proof.
  intros Hn.
  assert (Hall : forallb (fun m => count_line_ok (Z.of_nat m)) (seq 1 100)
                 = true) by (vm_compute; reflexivity).
  rewrite forallb_forall in Hall.
  specialize (Hall (Z.to_nat n)).
  rewrite Z2Nat.id in Hall by lia. apply Hall, in_seq. lia.
Qed.

Lemma count_line_facts (n : Z) :
  1 <= n <= 100 ->
  let s := list_ascii_of_string (dec n) in
  forallb text_byte s = true /\ firstn 3 s = s /\ skipn 3 s = [] /\
  strtol s = (n, []) /\ (Z.of_nat (List.length s) <? 1) = false.
Proof.
  intros Hn. cbv zeta. pose proof (count_lines_ok n Hn) as H.
  unfold count_line_ok in H.
  apply andb_true_iff in H as [H Hs]. apply andb_true_iff in H as [H H3].
  apply andb_true_iff in H as [Ht H1].
  apply Nat.leb_le in H1, H3.
  split; [exact Ht|]. split; [apply firstn_all2; lia|].
  split; [apply skipn_all2; lia|]. split.
  - destruct (strtol _) as [v [|? ?]]; [|discriminate].
    apply Z.eqb_eq in Hs. congruence.
  - apply Z.ltb_ge. lia.
Qed.

Lemma ask_control_reads (fuel : nat) (tty : bool) (tries rc : Z)
    (b rest : list ascii) (out : list event) :
  control_pending b rc = true ->
  exists out',
    ask_control (S fuel) tty tries rc
      (mk_console b (list_ascii_of_string "y" ++ newline :: rest) out)
    = Some (mk_console (list_ascii_of_string "y") rest out').
Proof.
  intros Hp. cbn [ask_control con_buffer con_stdin con_out]. rewrite Hp.
  rewrite (input_string_reads_line tty _ b 2 (list_ascii_of_string "y") rest)
    by (reflexivity || (unfold INT_MAX; lia)).
  cbv zeta. cbn [Z.to_nat Z.sub Z.add Z.opp Z.pos_sub Pos.to_nat
                 Pos.iter_op Nat.add list_ascii_of_string firstn skipn
                 forallb].
  eexists. apply ask_control_done. reflexivity.
Qed.

Lemma ask_count_reads (fuel : nat) (tty : bool) (n : Z)
    (b rest : list ascii) (out : list event) :
  1 <= n <= 100 ->
  exists out',
    ask_count (S fuel) tty (-1) (mk_console b (answer_line n ++ rest) out)
    = Some (n, mk_console (list_ascii_of_string (dec n)) rest out').
Proof.
  intros Hn. destruct (count_line_facts n Hn) as (Ht & Hf & Hs & Hv & Hl).
  unfold answer_line. rewrite <- app_assoc.
  change ([newline] ++ rest) with (newline :: rest).
  cbn [ask_count con_buffer con_stdin con_out Z.ltb Z.compare].
  rewrite (input_string_reads_line tty _ b 4 _ rest)
    by (exact Ht || (unfold INT_MAX; lia)).
  cbv zeta. change (Z.to_nat (4 - 1)) with 3%nat.
  rewrite Hf, Hs, Hv. cbn [forallb]. rewrite Hl.
  rewrite int_wrap_id by (unfold int_range, INT_MIN, INT_MAX; lia).
  destruct (Z.gtb_spec n 100); [lia|]. destruct (Z.ltb_spec n 1); [lia|].
  cbn [negb orb Z.eqb]. eexists. apply ask_count_done. lia.
Qed.

Lemma ask_direction_reads (fuel : nat) (tty : bool) (i d : Z)
    (b rest : list ascii) (out : list event) :
  d = 0 \/ d = 1 ->
  exists out',
    ask_direction (S fuel) tty i (-1)
      (mk_console b (answer_line d ++ rest) out)
    = Some (d, mk_console (list_ascii_of_string (dec d)) rest out').
Proof.
  intros Hd. unfold answer_line. rewrite <- app_assoc.
  change ([newline] ++ rest) with (newline :: rest).
  cbn [ask_direction con_buffer con_stdin con_out Z.ltb Z.compare].
  rewrite (input_string_reads_line tty _ b 2 _ rest);
    [|unfold INT_MAX; lia|destruct Hd as [-> | ->]; reflexivity].
  cbv zeta. change (Z.to_nat (2 - 1)) with 1%nat.
  destruct Hd as [-> | ->]; cbn; eexists; apply ask_direction_done; lia.
Qed.

Lemma ask_directions_reads (fuel : nat) (tty : bool) (ds : list Z) :
  Forall (fun d => d = 0 \/ d = 1) ds ->
  forall (i : Z) (b rest : list ascii) (out : list event),
  exists b' out',
    ask_directions (S fuel) tty (List.length ds) i
      (mk_console b (flat_map answer_line ds ++ rest) out)
    = Some (ds, mk_console b' rest out').
Proof.
  induction 1 as [|d ds Hd _ IH]; intros i b rest out.
  - exists b, out. reflexivity.
  - cbn [flat_map List.length]. rewrite <- app_assoc.
    cbn [ask_directions].
    destruct (ask_direction_reads fuel tty i d b
                (flat_map answer_line ds ++ rest) out Hd) as [out1 E1].
    rewrite E1.
    destruct (IH (incr i) (list_ascii_of_string (dec d)) rest out1)
      as (b' & out' & E2).
    rewrite E2. eauto.
Qed.

(** X13: typing "y", the number of cars (1 to 100) and one direction
    (0 or 1) per line makes [intro] return exactly these directions and
    their number, asking each question once and leaving what follows
    on the input untouched -- provided the first loop is entered, that
    is unless the not yet written buffer already reads "y" or "n". *)
Theorem intro_reads_script (fuel : nat) (tty : bool) (buffer0 : list ascii)
    (rc0 : Z) (dirs : list Z) (rest : list ascii) :
  control_pending buffer0 rc0 = true ->
  1 <= Z.of_nat (List.length dirs) <= 100 ->
  Forall (fun d => d = TO_HANOVER \/ d = TO_NORWICH) dirs ->
  exists k,
    intro (S fuel) tty buffer0 rc0 (script dirs ++ rest)
    = Some (chosen_cars (Z.of_nat (List.length dirs)) dirs, k) /\
    con_stdin k = rest.
Proof.
  intros Hp Hn Hd. unfold intro, script.
  assert (E : (list_ascii_of_string "y" ++ [newline] ++
               answer_line (Z.of_nat (List.length dirs)) ++
               flat_map answer_line dirs) ++ rest =
              list_ascii_of_string "y" ++ newline ::
              (answer_line (Z.of_nat (List.length dirs)) ++
               (flat_map answer_line dirs ++ rest))).
  { rewrite <- !app_assoc. reflexivity. }
  rewrite E. clear E.
  match goal with
  | |- context [ask_control _ _ ?t _ (mk_console _ (_ ++ _ :: ?r) ?o)] =>
      destruct (ask_control_reads fuel tty t rc0 buffer0 r o Hp) as [out1 E1]
  end.
  rewrite E1. cbn [con_buffer negb].
  change (holds (list_ascii_of_string "y") "y") with true. cbn [negb].
  destruct (ask_count_reads fuel tty (Z.of_nat (List.length dirs))
              (list_ascii_of_string "y")
              (flat_map answer_line dirs ++ rest) out1 Hn) as [out2 E2].
  rewrite E2, Nat2Z.id.
  destruct (ask_directions_reads fuel tty dirs Hd 0
              (list_ascii_of_string (dec (Z.of_nat (List.length dirs))))
              rest out2) as (b' & out3 & E3).
  rewrite E3. eexists. split; reflexivity.
Qed.

Lemma intro_reads_script_witness :
  exists k,
    intro 1 false [] 0 (script [0; 1; 1] ++ list_ascii_of_string "tail")
    = Some (chosen_cars 3 [0; 1; 1], k) /\
    con_stdin k = list_ascii_of_string "tail".
Proof.
  assert (H1 : control_pending [] 0 = true) by reflexivity.
  assert (H2 : 1 <= Z.of_nat (List.length [0; 1; 1]) <= 100) by (cbn; lia).
  assert (H3 : Forall (fun d => d = TO_HANOVER \/ d = TO_NORWICH) [0; 1; 1])
    by (repeat constructor; auto).
  exact (intro_reads_script 0 false [] 0 [0; 1; 1]
           (list_ascii_of_string "tail") H1 H2 H3).
Defined.

(** X14: [intro] reads its buffer and [rc] in its first loop condition
    before anything has been written to them.  If the fresh buffer
    happens to read "n" (and [rc] is not -1) it returns [NULL] at once:
    no question is asked and no input is read. *)
Theorem intro_trusts_fresh_buffer (fuel : nat) (tty : bool) (rc0 : Z)
    (stdin : list ascii) :
  rc0 <> -1 ->
  intro fuel tty (list_ascii_of_string "n") rc0 stdin =
  Some (random_cars,
        mk_console (list_ascii_of_string "n") stdin
          [Printf "\nWelcome to the Ledyard Bridge Construction Zone!\n" [];
           Printf "------------------------------------------------\n" []]).
Proof.
  intros Hrc. unfold intro.
  rewrite ask_control_done; [reflexivity|].
  unfold control_pending. cbn.
  destruct (Z.eqb_spec rc0 (-1)); [contradiction|reflexivity].
Qed.

Lemma intro_trusts_fresh_buffer_witness :
  intro 0 true (list_ascii_of_string "n") 0 (script [1]) =
  Some (random_cars,
        mk_console (list_ascii_of_string "n") (script [1])
          [Printf "\nWelcome to the Ledyard Bridge Construction Zone!\n" [];
           Printf "------------------------------------------------\n" []]).
Proof.
  apply (intro_trusts_fresh_buffer 0 true 0 (script [1])). discriminate.
Defined.

(** ** [simulation] *)

Lemma skipn_nth_error {A} (l : list A) (k : nat) (a : A) :
  nth_error l k = Some a -> skipn k l = a :: skipn (S k) l.
Proof.
  revert l. induction k as [|k IH]; intros [|b l]; cbn; try discriminate.
  - intros H. injection H as ->. reflexivity.
  - intros H. apply (IH l H).
Qed.

Lemma zero_codes (l : list Z) :
  forallb (fun rc => rc =? 0) l = true ->
  failed (hd 0 l) = false /\ forallb (fun rc => rc =? 0) (tl l) = true.
Proof.
  destruct l as [|rc l]; [auto|]. cbn. intros H.
  apply andb_true_iff in H as [Hrc H]. unfold failed. rewrite Hrc. auto.
Qed.

Lemma join_cars_threads (n : nat) (i : Z) (s : sim) :
  sim_threads (join_cars n i s) = sim_threads s /\
  (forallb (fun rc => rc =? 0) (sim_rcs s) = true ->
   sim_out (join_cars n i s) = sim_out s).
Proof.
  revert i s. induction n as [|n IH]; intros i s; [split; reflexivity|].
  cbn [join_cars].
  match goal with
  | |- context [join_cars n (incr i) ?s0] =>
      destruct (IH (incr i) s0) as [Ht Ho]
  end.
  split; [rewrite Ht; reflexivity|].
  intros Hz. destruct (zero_codes _ Hz) as [Hrc Htl].
  rewrite Ho by exact Htl. cbn [sim_out]. rewrite Hrc. reflexivity.
Qed.

Lemma spawn_cars_chosen (dirs : list Z) (n : nat) :
  Forall (fun d => d = 0 \/ d = 1) dirs ->
  forall (i : Z) (s : sim),
  0 <= i -> i + Z.of_nat n <= Z.of_nat (List.length dirs) ->
  i + Z.of_nat n <= INT_MAX ->
  forallb (fun rc => rc =? 0) (sim_rcs s) = true ->
  exists s',
    spawn_cars n i (Some dirs) s = Some (all_started s') /\
    sim_threads s' =
      sim_threads s ++ map vehicle_for (firstn n (skipn (Z.to_nat i) dirs)) /\
    sim_out s' = sim_out s /\
    forallb (fun rc => rc =? 0) (sim_rcs s') = true.
Proof.
  intros Hd. induction n as [|n IH]; intros i s Hi Hlen Hmax Hz.
  - exists s. cbn. rewrite app_nil_r. auto.
  - cbn [spawn_cars].
    destruct (nth_error dirs (Z.to_nat i)) as [d|] eqn:En.
    2: { apply nth_error_None in En. lia. }
    assert (Hv : d = 0 \/ d = 1).
    { rewrite Forall_forall in Hd. apply Hd. eapply nth_error_In, En. }
    rewrite (skipn_nth_error _ _ _ En). cbn [firstn map].
    destruct (zero_codes _ Hz) as [Hrc Htl].
    assert (Hinc : incr i = i + 1).
    { apply incr_small. unfold INT_MIN, INT_MAX in *. lia. }
    assert (Hnext : Z.to_nat (i + 1) = S (Z.to_nat i)) by lia.
    destruct Hv as [-> | ->]; cbn -[incr consider_interleaving];
      rewrite Hrc; cbn -[incr consider_interleaving];
      destruct (consider_interleaving 1 3 (sim_rands s)) as [nap rands2];
      rewrite Hinc;
      match goal with
      | |- context [spawn_cars n (i + 1) (Some dirs) ?s0] =>
          destruct (IH (i + 1) s0 ltac:(lia) ltac:(lia) ltac:(lia) Htl)
            as (s' & Es & Et & Eo & Ez)
      end;
      exists s'; rewrite Es, Et, Hnext; cbn [sim_threads sim_out] in *;
      rewrite <- app_assoc; auto.
Qed.

(** X15: given an array of at least [total_cars] valid directions (and
    every [pthread_create] and [pthread_join] succeeding),
    [simulation] starts one car thread per entry, in order and with the
    direction chosen for it, joins them, and reports no error. *)
Theorem simulation_starts_chosen_cars (total_cars : Z) (dirs : list Z)
    (rands rcs : list Z) :
  0 < total_cars <= INT_MAX ->
  total_cars <= Z.of_nat (List.length dirs) ->
  Forall (fun d => d = TO_HANOVER \/ d = TO_NORWICH) dirs ->
  forallb (fun rc => rc =? 0) rcs = true ->
  exists s,
    simulation total_cars (Some dirs) rands rcs = Some (all_started s) /\
    sim_threads s = map vehicle_for (firstn (Z.to_nat total_cars) dirs) /\
    existsb is_stderr (sim_out s) = false.
Proof.
  intros Ht Hlen Hd Hz. unfold simulation.
  destruct (Z.leb_spec total_cars 0); [lia|].
  match goal with
  | |- context [spawn_cars ?n 0 (Some dirs) ?s0] =>
      destruct (spawn_cars_chosen dirs n Hd 0 s0 ltac:(lia) ltac:(lia)
                  ltac:(lia) Hz) as (s' & Es & Et & Eo & Ez)
  end.
  rewrite Es. eexists. split; [reflexivity|].
  destruct (join_cars_threads (Z.to_nat total_cars) 0 s') as [Jt Jo].
  cbn [sim_threads sim_out]. rewrite Jt, Et, (Jo Ez), Eo.
  split; reflexivity.
Qed.

Lemma simulation_starts_chosen_cars_witness :
  exists s,
    simulation 3 (Some [0; 1; 1]) [1; 2; 3] [] = Some (all_started s) /\
    sim_threads s = map vehicle_for (firstn (Z.to_nat 3) [0; 1; 1]) /\
    existsb is_stderr (sim_out s) = false.
Proof.
  assert (H1 : 0 < 3 <= INT_MAX) by (unfold INT_MAX; lia).
  assert (H2 : 3 <= Z.of_nat (List.length [0; 1; 1])) by (cbn; lia).
  assert (H3 : Forall (fun d => d = TO_HANOVER \/ d = TO_NORWICH) [0; 1; 1])
    by (repeat constructor; auto).
  exact (simulation_starts_chosen_cars 3 [0; 1; 1] [1; 2; 3] [] H1 H2 H3
           eq_refl).
Defined.

(** X16: the directions [intro] returns are accepted by [simulation]:
    whatever was typed, if [intro] hands back an array and a count,
    [simulation] run on them (every [pthread_create] and
    [pthread_join] succeeding) never takes its "directions are not
    valid" exit, starts exactly one car thread per entry with the
    direction typed for it, and prints nothing on [stderr]. *)
Theorem intro_then_simulation (fuel : nat) (tty : bool) (buffer0 : list ascii)
    (rc0 : Z) (stdin : list ascii) (total : Z) (dirs : list Z) (k : console)
    (rands rcs : list Z) :
  intro fuel tty buffer0 rc0 stdin = Some (chosen_cars total dirs, k) ->
  forallb (fun rc => rc =? 0) rcs = true ->
  exists s,
    simulation total (Some dirs) rands rcs = Some (all_started s) /\
    sim_threads s = map vehicle_for dirs /\
    existsb is_stderr (sim_out s) = false.
Proof.
  intros Hi Hz. apply intro_answer_range in Hi as (Ht & Hl & Hd).
  unfold simulation.
  destruct (Z.leb_spec total 0); [lia|].
  match goal with
  | |- context [spawn_cars ?n 0 (Some dirs) ?s0] =>
      destruct (spawn_cars_chosen dirs n Hd 0 s0 ltac:(lia) ltac:(lia)
                  ltac:(unfold INT_MAX; lia) Hz) as (s' & Es & Et & Eo & Ez)
  end.
  rewrite Es. eexists. split; [reflexivity|].
  destruct (join_cars_threads (Z.to_nat total) 0 s') as [Jt Jo].
  cbn [sim_threads sim_out]. rewrite Jt, Et, (Jo Ez), Eo.
  change (Z.to_nat 0) with 0%nat. cbn [skipn sim_threads app].
  rewrite firstn_all2 by lia.
  split; reflexivity.
Qed.

Lemma intro_then_simulation_witness :
  exists s,
    simulation 3 (Some [0; 1; 1]) [] [] = Some (all_started s) /\
    sim_threads s = map vehicle_for [0; 1; 1] /\
    existsb is_stderr (sim_out s) = false.
Proof.
  eapply (intro_then_simulation 5 false [] 0
            (script [0; 1; 1] ++ list_ascii_of_string "tail")).
  - vm_compute. reflexivity.
  - reflexivity.
Defined.

Lemma skipn_S_tl {A} (k : nat) (l : list A) :
  skipn (S k) l = skipn k (tl l).
Proof. destruct l; cbn; [rewrite skipn_nil|]; reflexivity. Qed.

Lemma spawn_cars_invalid (good : list Z) (bad : Z) (more : list Z) :
  Forall (fun d => d = 0 \/ d = 1) good ->
  bad <> 0 -> bad <> 1 ->
  forall (pre : list Z) (n : nat) (s : sim),
  (List.length good < n)%nat ->
  Z.of_nat (List.length pre + List.length good) < INT_MAX ->
  exists s',
    spawn_cars n (Z.of_nat (List.length pre))
      (Some (pre ++ good ++ bad :: more)) s
    = Some (invalid_direction s') /\
    (List.length (sim_threads s')
     <= List.length (sim_threads s) + List.length good)%nat /\
    sim_rcs s' = skipn (List.length good) (sim_rcs s) /\
    last (sim_out s') (Printf "" []) =
      Stderr "Error, passed in directions are not valid\n" [].
Proof.
  intros Hg Hb0 Hb1. induction Hg as [|g good Hv _ IH]; intros pre n s Hn Hmax.
  - destruct n as [|n]; [cbn in Hn; lia|].
    cbn [spawn_cars app]. rewrite Nat2Z.id.
    rewrite nth_error_app2, Nat.sub_diag by lia. cbn [nth_error].
    destruct (Z.eqb_spec bad 0); [contradiction|].
    destruct (Z.eqb_spec bad 1); [contradiction|]. cbn [negb andb].
    eexists. split; [reflexivity|]. cbn [sim_threads sim_rcs sim_out skipn].
    rewrite last_last. repeat split. cbn. lia.
  - destruct n as [|n]; [cbn in Hn; lia|].
    cbn [List.length] in Hn, Hmax.
    cbn [spawn_cars]. rewrite Nat2Z.id.
    rewrite nth_error_app2, Nat.sub_diag by lia. cbn [app nth_error].
    assert (Hinc : incr (Z.of_nat (List.length pre))
                   = Z.of_nat (List.length (pre ++ [g]))).
    { rewrite length_app. cbn [List.length].
      rewrite incr_small by (unfold INT_MIN, INT_MAX in *; lia). lia. }
    assert (Hdirs : pre ++ g :: good ++ bad :: more
                    = (pre ++ [g]) ++ good ++ bad :: more).
    { rewrite <- app_assoc. reflexivity. }
    assert (Hmax' : Z.of_nat (List.length (pre ++ [g]) + List.length good)
                    < INT_MAX).
    { rewrite length_app. cbn [List.length]. lia. }
    rewrite Hinc, Hdirs.
    destruct Hv as [-> | ->]; cbn -[incr consider_interleaving];
      destruct (failed (hd 0 (sim_rcs s)));
      cbn -[incr consider_interleaving];
      destruct (consider_interleaving 1 3 (sim_rands s)) as [nap rands2];
      match goal with
      | |- context [spawn_cars n _ (Some (?p ++ _)) ?s0] =>
          destruct (IH p n s0 ltac:(lia) Hmax')
            as (s' & Es & Et & Er & Eo)
      end;
      exists s'; rewrite Es; cbn [sim_threads sim_rcs] in *;
      rewrite ?length_app in Et; cbn [List.length] in Et |- *;
      (split; [reflexivity|]); (split; [lia|]);
      (split; [|exact Eo]); rewrite Er; symmetry; apply skipn_S_tl.
Qed.

(** X17: when the array holds a value other than 0 and 1 among its
    first [total_cars] entries, [simulation] returns at the first such
    entry: it has tried to start a thread only for the entries before
    it (one [pthread_create] each), its last output is the error
    message, and it has called no [pthread_join] -- the threads it
    started are left running. *)
Theorem simulation_stops_at_invalid_direction (total_cars : Z)
    (good : list Z) (bad : Z) (more rands rcs : list Z) :
  Forall (fun d => d = TO_HANOVER \/ d = TO_NORWICH) good ->
  bad <> TO_HANOVER -> bad <> TO_NORWICH ->
  Z.of_nat (List.length good) < total_cars <= INT_MAX ->
  exists s,
    simulation total_cars (Some (good ++ bad :: more)) rands rcs
    = Some (invalid_direction s) /\
    (List.length (sim_threads s) <= List.length good)%nat /\
    sim_rcs s = skipn (List.length good) rcs /\
    last (sim_out s) (Printf "" []) =
      Stderr "Error, passed in directions are not valid\n" [].
Proof.
  intros Hg Hb0 Hb1 Ht. unfold simulation.
  destruct (Z.leb_spec total_cars 0); [lia|].
  match goal with
  | |- context [spawn_cars ?n 0 _ ?s0] =>
      destruct (spawn_cars_invalid good bad more Hg Hb0 Hb1 [] n s0
                  ltac:(lia) ltac:(cbn [List.length]; lia))
        as (s' & Es & El & Er & Eo)
  end.
  cbn [List.length app] in Es. change (Z.of_nat 0) with 0 in Es.
  rewrite Es. exists s'. auto.
Qed.

Lemma simulation_stops_at_invalid_direction_witness :
  exists s,
    simulation 3 (Some ([0] ++ 2 :: [1])) [1; 2; 3] [0; 0; 7]
    = Some (invalid_direction s) /\
    (List.length (sim_threads s) <= List.length [0])%nat /\
    sim_rcs s = skipn (List.length [0]) [0; 0; 7] /\
    last (sim_out s) (Printf "" []) =
      Stderr "Error, passed in directions are not valid\n" [].
Proof.
  apply (simulation_stops_at_invalid_direction 3 [0] 2 [1]).
  - repeat constructor; auto.
  - discriminate.
  - discriminate.
  - cbn. unfold INT_MAX. lia.
Defined.




Lemma spawn_cars_random (n : nat) :
  forall (i : Z) (s : sim),
  Forall (fun r => 0 <= r) (sim_rands s) ->
  forallb (fun rc => rc =? 0) (sim_rcs s) = true ->
  exists s',
    spawn_cars n i None s = Some (all_started s') /\
    List.length (sim_threads s') = (List.length (sim_threads s) + n)%nat /\
    sim_out s' = sim_out s /\
    forallb (fun rc => rc =? 0) (sim_rcs s') = true.
Proof.
  induction n as [|n IH]; intros i s Hr Hz.
  - exists s. cbn. auto.
  - cbn [spawn_cars].
    pose proof (Z.rem_bound_pos (hd 0 (sim_rands s)) 2 (nonneg_hd _ Hr)
                  ltac:(lia)) as Hb.
    destruct (zero_codes _ Hz) as [Hrc Htl]. rewrite Hrc.
    destruct (consider_interleaving_step 1 3 (tl (sim_rands s))
                (Forall_tl _ _ Hr) ltac:(lia) ltac:(lia)) as [Hr2 _].
    destruct (consider_interleaving 1 3 (tl (sim_rands s))) as [nap rands2].
    cbn [snd] in Hr2.
    destruct (Z.eqb_spec (Z.rem (hd 0 (sim_rands s)) 2) 0) as [E0|E0].
    + cbn -[incr].
      match goal with
      | |- context [spawn_cars n (incr i) None ?s0] =>
          destruct (IH (incr i) s0 Hr2 Htl) as (s' & Es & Et & Eo & Ez)
      end.
      exists s'. rewrite Es, Et. cbn [sim_threads sim_out] in *.
      rewrite length_app. cbn [List.length].
      repeat split; auto; lia.
    + destruct (Z.eqb_spec (Z.rem (hd 0 (sim_rands s)) 2) 1) as [E1|E1];
        [|lia].
      cbn -[incr].
      match goal with
      | |- context [spawn_cars n (incr i) None ?s0] =>
          destruct (IH (incr i) s0 Hr2 Htl) as (s' & Es & Et & Eo & Ez)
      end.
      exists s'. rewrite Es, Et. cbn [sim_threads sim_out] in *.
      rewrite length_app. cbn [List.length].
      repeat split; auto; lia.
Qed.

(** X19: in the random mode (no array), with [rand()] returning
    non-negative values and every [pthread_create] and [pthread_join]
    succeeding, [simulation] starts exactly [total_cars] car threads,
    joins them and reports no error. *)
Theorem simulation_random (total_cars : Z) (rands rcs : list Z) :
  0 < total_cars ->
  Forall (fun r => 0 <= r) rands ->
  forallb (fun rc => rc =? 0) rcs = true ->
  exists s,
    simulation total_cars None rands rcs = Some (all_started s) /\
    Z.of_nat (List.length (sim_threads s)) = total_cars /\
    existsb is_stderr (sim_out s) = false.
Proof.
  intros Ht Hr Hz. unfold simulation.
  destruct (Z.leb_spec total_cars 0); [lia|].
  match goal with
  | |- context [spawn_cars ?n 0 None ?s0] =>
      destruct (spawn_cars_random n 0 s0 Hr Hz) as (s' & Es & Et & Eo & Ez)
  end.
  rewrite Es. eexists. split; [reflexivity|].
  destruct (join_cars_threads (Z.to_nat total_cars) 0 s') as [Jt Jo].
  cbn [sim_threads sim_out] in *. rewrite Jt, Et, (Jo Ez), Eo.
  split; [cbn; lia|reflexivity].
Qed.

Lemma simulation_random_witness :
  exists s,
    simulation 20 None [1; 4; 2; 3; 1] [] = Some (all_started s) /\
    Z.of_nat (List.length (sim_threads s)) = 20 /\
    existsb is_stderr (sim_out s) = false.
Proof.
  apply (simulation_random 20 [1; 4; 2; 3; 1] []).
  - lia.
  - repeat constructor; lia.
  - reflexivity.
Defined.
